(** * Brand-mention detection: a shallow embedding of [utils/brandUtils.js]
      and of the result assembly of [controllers/checkController.js].

    Strings are sequences of UTF-16 code units.  The embedding covers the
    code units below 256 (the Latin-1 range), one [ascii] per code unit;
    on that range the character tables below are the ECMAScript ones.
    Beyond it lower-casing can change the length of a string, and the
    case folding of a regular expression identifies characters that
    lower-casing keeps apart: the statements on letter case are therefore
    made character by character, or for ASCII input. *)

From Stdlib Require Import Ascii String List Bool Arith ZArith Lia.
From Stdlib Require DecimalString DecimalNat Sorted.
Import ListNotations.

(* ================================================================== *)
(** * ECMAScript strings *)
(* ================================================================== *)
Module JsString.

Definition str : Type := list ascii.

(** A string literal of the source. *)
Definition lit (s : string) : str := list_ascii_of_string s.

Definition code (c : ascii) : nat := nat_of_ascii c.

Definition between (lo hi : nat) (c : ascii) : bool :=
  (lo <=? code c) && (code c <=? hi).

(** [\d] *)
Definition isDigit (c : ascii) : bool := between 48 57 c.

(** [[a-z0-9]] under the [i] flag: the ASCII letters and digits (no code
    unit of the Latin-1 range above 127 canonicalizes to an ASCII one). *)
Definition isAlnum (c : ascii) : bool :=
  between 48 57 c || between 65 90 c || between 97 122 c.

(** [\w], the class behind [\b]. *)
Definition isWordChar (c : ascii) : bool := isAlnum c || (code c =? 95).

(** [\s], which is also the set [String.prototype.trim] strips: TAB, LF,
    VT, FF, CR, SPACE and NBSP are its members below 256. *)
Definition isSpace (c : ascii) : bool :=
  between 9 13 c || (code c =? 32) || (code c =? 160).

(** [String.prototype.toLowerCase] on one code unit: A-Z, and the Latin-1
    capitals U+00C0..U+00DE without the multiplication sign U+00D7. *)
Definition toLowerCaseChar (c : ascii) : ascii :=
  if between 65 90 c || (between 192 222 c && negb (code c =? 215))
  then ascii_of_nat (code c + 32)
  else c.

Definition toLowerCase (s : str) : str := map toLowerCaseChar s.

(** Canonicalize of a case-insensitive, non-unicode RegExp: the upper-case
    mapping when it yields one code unit.  U+00DF (two units), and U+00B5
    and U+00FF (whose capitals lie above 255 and are the capital of no other
    Latin-1 unit) are kept: only equality of canonical forms is observed. *)
Definition canonicalize (c : ascii) : ascii :=
  if between 97 122 c || (between 224 254 c && negb (code c =? 247))
  then ascii_of_nat (code c - 32)
  else c.

Definition str_eqb (s t : str) : bool :=
  if list_eq_dec ascii_dec s t then true else false.

(** Truthiness of a string: [!s] holds exactly for the empty string. *)
Definition nonEmpty (s : str) : bool :=
  match s with [] => false | _ :: _ => true end.

Fixpoint dropWhile (p : ascii -> bool) (s : str) : str :=
  match s with
  | [] => []
  | c :: s' => if p c then dropWhile p s' else s
  end.

Fixpoint takeWhile (p : ascii -> bool) (s : str) : str :=
  match s with
  | [] => []
  | c :: s' => if p c then c :: takeWhile p s' else []
  end.

(** [String.prototype.trim] *)
Definition trim (s : str) : str :=
  rev (dropWhile isSpace (rev (dropWhile isSpace s))).

Fixpoint startsWith (p s : str) : bool :=
  match p, s with
  | [], _ => true
  | _ :: _, [] => false
  | x :: p', y :: s' => Ascii.eqb x y && startsWith p' s'
  end.

(** [String.prototype.includes] *)
Fixpoint includes (s p : str) : bool :=
  startsWith p s ||
  match s with
  | [] => false
  | _ :: s' => includes s' p
  end.

(** [Array.prototype.join] on strings. *)
Fixpoint join (sep : str) (l : list str) : str :=
  match l with
  | [] => []
  | [x] => x
  | x :: l' => x ++ sep ++ join sep l'
  end.

(** [s.replace(/[^a-z0-9]/gi, '')] *)
Definition stripNonAlnum (s : str) : str := filter isAlnum s.

End JsString.
Import JsString.

(* ================================================================== *)
(** * [levenshtein] *)
(* ================================================================== *)
Module Levenshtein.

(** [a[i - 1].toLowerCase() === b[j - 1].toLowerCase() ? 0 : 1] *)
Definition substitutionCost (x y : ascii) : nat :=
  if Ascii.eqb (toLowerCaseChar x) (toLowerCaseChar y) then 0 else 1.

(** [Math.min] of three arguments. *)
Definition min3 (x y z : nat) : nat := Nat.min x (Nat.min y z).

(** [matrix[0][i] = i] for [0 <= i <= a.length]. *)
Definition first_row (a : str) : list nat := seq 0 (length a + 1).

(** The inner loop: the cells [matrix[j][1 ..]] of one row.  [left] is
    [matrix[j][i - 1]] and [prev] is [matrix[j - 1]] from column [i - 1]. *)
Fixpoint fill_row (a : str) (bj : ascii) (left : nat) (prev : list nat)
  : list nat :=
  match a, prev with
  | ai :: a', diag :: ((up :: _) as prev') =>
      let cell := min3 (left + 1) (up + 1) (diag + substitutionCost ai bj) in
      cell :: fill_row a' bj cell prev'
  | _, _ => []
  end.

(** The outer loop: rows [j], [j + 1], ... with [matrix[j][0] = j]. *)
Fixpoint fill_rows (a b : str) (j : nat) (prev : list nat)
  : list (list nat) :=
  match b with
  | [] => []
  | bj :: b' =>
      let row := j :: fill_row a bj j prev in
      row :: fill_rows a b' (S j) row
  end.

Definition matrix (a b : str) : list (list nat) :=
  first_row a :: fill_rows a b 1 (first_row a).

Definition levenshtein (a b : str) : nat :=
  if negb (nonEmpty a) then length b
  else if negb (nonEmpty b) then length a
  else nth (length a) (nth (length b) (matrix a b) []) 0.

End Levenshtein.
Import Levenshtein.

(* ================================================================== *)
(** * The edit-distance recurrence *)
(* ================================================================== *)
Module EditDistance.

(** The edit-distance recurrence the matrix tabulates, on prefixes held
    last character first. *)
Fixpoint dist (x : str) : str -> nat :=
  fix inner (y : str) : nat :=
    match x, y with
    | [], _ => length y
    | _, [] => length x
    | c :: x', e :: y' =>
        min3 (dist x' y + 1) (inner y' + 1) (dist x' y' + substitutionCost c e)
    end.

(** Row of the table for the prefix [y] of [b]: column by column. *)
Fixpoint row_of (pre a y : str) : list nat :=
  dist pre y ::
  match a with
  | [] => []
  | c :: a' => row_of (c :: pre) a' y
  end.

Fixpoint rows_of (a b y : str) : list (list nat) :=
  match b with
  | [] => []
  | bj :: b' => row_of [] a (bj :: y) :: rows_of a b' (bj :: y)
  end.

End EditDistance.
Import EditDistance.

(* ================================================================== *)
(** * [splitIntoItems] *)
(* ================================================================== *)
Module Segmenter.

Definition LF : ascii := "010"%char.
Definition CR : ascii := "013"%char.

(** Puts a character in front of the first field of a split. *)
Definition consField (c : ascii) (fields : list str) : list str :=
  match fields with
  | f :: fs => (c :: f) :: fs
  | [] => [[c]]
  end.

(** [text.split(/\r?\n/)]: a line feed, with the carriage return before it
    when there is one, ends a field; the empty text gives one empty field. *)
Fixpoint splitLines (text : str) : list str :=
  match text with
  | [] => [[]]
  | c :: rest =>
      if Ascii.eqb c LF then [] :: splitLines rest
      else if Ascii.eqb c CR then
        match rest with
        | d :: rest' =>
            if Ascii.eqb d LF then [] :: splitLines rest'
            else consField c (splitLines rest)
        | [] => consField c (splitLines rest)
        end
      else consField c (splitLines rest)
  end.

(** The separators of [/,|;|\n/]. *)
Definition isListSep (c : ascii) : bool :=
  Ascii.eqb c ","%char || Ascii.eqb c ";"%char || Ascii.eqb c LF.

(** [text.split(/,|;|\n/)] *)
Fixpoint splitSeps (text : str) : list str :=
  match text with
  | [] => [[]]
  | c :: rest =>
      if isListSep c then [] :: splitSeps rest
      else consField c (splitSeps rest)
  end.

(** [.map(l => l.trim()).filter(Boolean)] *)
Definition trimmedNonEmpty (fields : list str) : list str :=
  filter nonEmpty (map trim fields).

Definition splitIntoItems (text : str) : list str :=
  if negb (nonEmpty text) then []
  else
    let lines := trimmedNonEmpty (splitLines text) in
    if length lines <=? 1 then trimmedNonEmpty (splitSeps text) else lines.

End Segmenter.
Import Segmenter.

(* ================================================================== *)
(** * [findBrandPositions] *)
(* ================================================================== *)
Module Matcher.

(** A Number as the matcher meets it: an integer-valued double, or the
    [Infinity] that [parseInt] yields on a digit run beyond the doubles. *)
Inductive number : Type :=
  | Finite (z : Z)
  | Infinity.

(** The Number value of a non-negative integer: round to nearest, ties to
    even, on a 53-bit significand; [2^1024] and above are [Infinity]. *)
Definition toNumber (n : Z) : number :=
  if (n <? 2 ^ 53)%Z then Finite n
  else
    let e := (Z.log2 n - 52)%Z in
    let q := Z.shiftr n e in
    let r := (n - Z.shiftl q e)%Z in
    let half := Z.shiftl 1 (e - 1) in
    let q' := if (half <? r)%Z || ((r =? half)%Z && Z.odd q)
              then (q + 1)%Z else q in
    let v := Z.shiftl q' e in
    if (2 ^ 1024 <=? v)%Z then Infinity else Finite v.

Definition digitValue (c : ascii) : Z := Z.of_nat (code c - 48).

(** [parseInt(digits, 10)] on a non-empty run of decimal digits. *)
Definition parseInt (digits : str) : number :=
  toNumber (fold_left (fun acc c => (10 * acc + digitValue c)%Z) digits 0%Z).

(** [item.match(/^\s*(\d+)[\.)]\s*/)]: the first capture, when the item
    starts with a numbered-list marker. *)
Definition numMatch (item : str) : option str :=
  let rest := dropWhile isSpace item in
  let digits := takeWhile isDigit rest in
  match dropWhile isDigit rest with
  | c :: _ =>
      if nonEmpty digits && (Ascii.eqb c "."%char || Ascii.eqb c ")"%char)
      then Some digits
      else None
  | [] => None
  end.

(** [\b] between a character ([prevWord]: it exists and is a word
    character) and the rest of the input. *)
Definition wordBoundary (prevWord : bool) (rest : str) : bool :=
  xorb prevWord (match rest with c :: _ => isWordChar c | [] => false end).

(** The escaped brand matched literally, under the [i] flag, and then the
    closing [\b]. *)
Fixpoint brandThenBoundary (prevWord : bool) (brand rest : str) : bool :=
  match brand with
  | [] => wordBoundary prevWord rest
  | b :: brand' =>
      match rest with
      | c :: rest' =>
          Ascii.eqb (canonicalize b) (canonicalize c)
          && brandThenBoundary (isWordChar c) brand' rest'
      | [] => false
      end
  end.

(** [regex.test(item)] for [new RegExp(`\\b${escapeForRegex(brand)}\\b`,
    'i')]: escaping makes every brand character a literal, and the
    pattern is tried at each index of the item. *)
Fixpoint regexTestFrom (prevWord : bool) (brand item : str) : bool :=
  (wordBoundary prevWord item && brandThenBoundary prevWord brand item)
  || match item with
     | c :: item' => regexTestFrom (isWordChar c) brand item'
     | [] => false
     end.

Definition regexTest (brand item : str) : bool :=
  regexTestFrom false brand item.

(** [item.split(/\s+/)]: a maximal run of white space ends a field. *)
Fixpoint splitSpacesFrom (inRun : bool) (item : str) : list str :=
  match item with
  | [] => [[]]
  | c :: rest =>
      if isSpace c then
        if inRun then splitSpacesFrom true rest
        else [] :: splitSpacesFrom true rest
      else consField c (splitSpacesFrom false rest)
  end.

Definition splitSpaces (item : str) : list str := splitSpacesFrom false item.

(** The scan state: the [positions] array and [currentRank]. *)
Record scan : Type := Scan {
  positions : list number;
  currentRank : number
}.

(** [positions.push(x)] *)
Definition push (ps : list number) (x : number) : list number := ps ++ [x].

(** [currentRank && currentRank > 0] *)
Definition rankActive (r : number) : bool :=
  match r with
  | Finite z => negb (z =? 0)%Z && (0 <? z)%Z
  | Infinity => true
  end.

(** [i + 1] *)
Definition lineIndex (i : nat) : number := Finite (Z.of_nat i + 1).

(** [Math.max(2, Math.max(1, Math.floor(brandClean.length * 0.25)))]: the
    product by 0.25 is exact, so the floor is the quotient by 4. *)
Definition threshold (brandClean : str) : nat :=
  Nat.max 1 (length brandClean / 4).

Definition fuzzyAccepts (t brandClean : str) : bool :=
  let tokenLower := toLowerCase t in
  let dist := levenshtein tokenLower (toLowerCase brandClean) in
  dist <=? Nat.max 2 (threshold brandClean).

(** [for (const t of tokens) { ... }] *)
Fixpoint fuzzyLoop (tokens : list str) (brandClean : str) (i : nat)
    (ps : list number) : list number :=
  match tokens with
  | [] => ps
  | t :: rest =>
      if negb (nonEmpty t) then fuzzyLoop rest brandClean i ps
      else if fuzzyAccepts t brandClean then push ps (lineIndex i)
      else fuzzyLoop rest brandClean i ps
  end.

(** The rank-or-index push shared by the exact and substring steps. *)
Definition pushRanked (i : nat) (rank : number) (ps : list number)
  : list number :=
  if rankActive rank then push ps rank else push ps (lineIndex i).

(** One iteration of the [for] loop over the items. *)
Definition loopBody (brand : str) (i : nat) (item : str) (st : scan) : scan :=
  let brandLower := toLowerCase brand in
  let itemLower := toLowerCase item in
  let rank :=
    match numMatch item with
    | Some digits => parseInt digits
    | None => currentRank st
    end in
  if regexTest brand item then Scan (pushRanked i rank (positions st)) rank
  else if includes itemLower brandLower
  then Scan (pushRanked i rank (positions st)) rank
  else
    let tokens := map stripNonAlnum (splitSpaces item) in
    let brandClean := stripNonAlnum brandLower in
    Scan (fuzzyLoop tokens brandClean i (positions st)) rank.

Fixpoint loopFrom (brand : str) (i : nat) (items : list str) (st : scan)
  : scan :=
  match items with
  | [] => st
  | item :: rest => loopFrom brand (S i) rest (loopBody brand i item st)
  end.

Definition findBrandPositions (items : list str) (brand : str)
  : list number :=
  positions (loopFrom brand 0 items (Scan [] (Finite 0))).

End Matcher.
Import Matcher.

(* ================================================================== *)
(** * Response payloads: the values [JSON.parse] builds *)
(* ================================================================== *)
Module Js.

(** A payload is tree-shaped data: no function, getter or cycle.  The code
    never computes with a payload Number, it only tests and prints it, so
    a finite Number is carried by its canonical [ToString] rendering (the
    rendering of both zeros is [0]).  An object lists its own properties in
    enumeration order, each key once. *)
#[warnings="-register-all"]
Inductive value : Type :=
  | VUndefined
  | VNull
  | VBool (b : bool)
  | VNum (text : str)
  | VStr (s : str)
  | VArr (elems : list value)
  | VObj (props : list (str * value)).

(** An abrupt completion carries no data: every handler of the modelled
    code ignores the exception it catches. *)
Inductive completion (A : Type) : Type :=
  | Return (a : A)
  | Throw.
Arguments Return {A} a.
Arguments Throw {A}.

Definition bind {A B : Type} (c : completion A) (k : A -> completion B)
  : completion B :=
  match c with
  | Return a => k a
  | Throw => Throw
  end.

Notation "x <- c ;; k" := (bind c (fun x => k))
  (at level 61, c at next level, right associativity).

(** ToBoolean *)
Definition truthy (v : value) : bool :=
  match v with
  | VUndefined | VNull => false
  | VBool b => b
  | VNum text => negb (str_eqb text (lit "0"))
  | VStr s => nonEmpty s
  | VArr _ | VObj _ => true
  end.

(** [typeof v === 'string'] *)
Definition isString (v : value) : bool :=
  match v with VStr _ => true | _ => false end.

(** [Array.isArray(v)] *)
Definition isArray (v : value) : bool :=
  match v with VArr _ => true | _ => false end.

(** The property names the code reads as data. *)
Inductive field : Type :=
  | f_data | f_output_text | f_output | f_content | f_text | f_choices
  | f_message | f_candidates | f_parts | f_result
  | f_length
  | f_0.

Definition fieldName (f : field) : str :=
  match f with
  | f_data => lit "data"
  | f_output_text => lit "output_text"
  | f_output => lit "output"
  | f_content => lit "content"
  | f_text => lit "text"
  | f_choices => lit "choices"
  | f_message => lit "message"
  | f_candidates => lit "candidates"
  | f_parts => lit "parts"
  | f_result => lit "result"
  | f_length => lit "length"
  | f_0 => lit "0"
  end.

Fixpoint lookup (k : str) (props : list (str * value)) : value :=
  match props with
  | [] => VUndefined
  | (k', v) :: rest => if str_eqb k k' then v else lookup k rest
  end.

Definition hasOwn (k : str) (props : list (str * value)) : bool :=
  existsb (fun p => str_eqb k (fst p)) props.

(** Decimal rendering of a length. *)
Definition decimal (n : nat) : str :=
  list_ascii_of_string (DecimalString.NilZero.string_of_uint (Nat.to_uint n)).

(** [v.f]: reading a property of [undefined] or [null] throws; a string
    and an array have [length] and index [0]; no other name of [field] is
    inherited by a primitive, an array or a plain object. *)
Definition get (v : value) (f : field) : completion value :=
  match v with
  | VUndefined | VNull => Throw
  | VBool _ | VNum _ => Return VUndefined
  | VStr s =>
      Return match f with
             | f_length => VNum (decimal (length s))
             | f_0 => match s with c :: _ => VStr [c] | [] => VUndefined end
             | _ => VUndefined
             end
  | VArr elems =>
      Return match f with
             | f_length => VNum (decimal (length elems))
             | f_0 => hd VUndefined elems
             | _ => VUndefined
             end
  | VObj props => Return (lookup (fieldName f) props)
  end.

Definition dquote : ascii := "034"%char.
Definition backslash : ascii := "092"%char.

Definition hexDigit (n : nat) : ascii :=
  if n <? 10 then ascii_of_nat (48 + n) else ascii_of_nat (87 + n).

(** QuoteJSONString, one code unit. *)
Definition quoteChar (c : ascii) : str :=
  if Ascii.eqb c dquote then [backslash; dquote]
  else if Ascii.eqb c backslash then [backslash; backslash]
  else if code c =? 8 then backslash :: lit "b"
  else if code c =? 12 then backslash :: lit "f"
  else if code c =? 10 then backslash :: lit "n"
  else if code c =? 13 then backslash :: lit "r"
  else if code c =? 9 then backslash :: lit "t"
  else if code c <? 32
  then backslash :: lit "u00" ++ [hexDigit (code c / 16); hexDigit (code c mod 16)]
  else [c].

Definition quote (s : str) : str :=
  dquote :: flat_map quoteChar s ++ [dquote].

(** [JSON.stringify(v)] without indentation; [None] is the [undefined]
    it returns for [undefined].  An [undefined] array element prints as
    [null] and an [undefined] property is left out. *)
Fixpoint stringify (v : value) : option str :=
  match v with
  | VUndefined => None
  | VNull => Some (lit "null")
  | VBool b => Some (if b then lit "true" else lit "false")
  | VNum text => Some text
  | VStr s => Some (quote s)
  | VArr elems =>
      Some (lit "[" ++
            join (lit ",")
              (map (fun e => match stringify e with
                             | Some t => t
                             | None => lit "null"
                             end) elems)
            ++ lit "]")
  | VObj props =>
      Some (lit "{" ++
            join (lit ",")
              (flat_map (fun p => match p with
                                  | (k, e) =>
                                      match stringify e with
                                      | Some t => [quote k ++ lit ":" ++ t]
                                      | None => []
                                      end
                                  end) props)
            ++ lit "}")
  end.

(** The value of the expression [JSON.stringify(v)]. *)
Definition JSON_stringify (v : value) : value :=
  match stringify v with
  | Some t => VStr t
  | None => VUndefined
  end.

(** ToString, as [Array.prototype.join] applies it to an element.  A plain
    object prints through [Object.prototype.toString] unless an own
    [toString] property (never callable in a payload) hides it, in which
    case the conversion throws. *)
Fixpoint toString (v : value) : completion str :=
  match v with
  | VUndefined => Return (lit "undefined")
  | VNull => Return (lit "null")
  | VBool b => Return (if b then lit "true" else lit "false")
  | VNum text => Return text
  | VStr s => Return s
  | VArr elems =>
      ss <- (fix each (l : list value) : completion (list str) :=
               match l with
               | [] => Return []
               | e :: l' =>
                   s <- match e with
                        | VUndefined | VNull => Return []
                        | _ => toString e
                        end ;;
                   ss <- each l' ;;
                   Return (s :: ss)
               end) elems ;;
      Return (join (lit ",") ss)
  | VObj props =>
      if hasOwn (lit "toString") props then Throw
      else Return (lit "[object Object]")
  end.

(** [elems.join(sep)]: [undefined] and [null] elements print as empty. *)
Fixpoint joinValues (sep : str) (elems : list value) : completion str :=
  match elems with
  | [] => Return []
  | e :: rest =>
      s <- match e with
           | VUndefined | VNull => Return []
           | _ => toString e
           end ;;
      match rest with
      | [] => Return s
      | _ :: _ => t <- joinValues sep rest ;; Return (s ++ sep ++ t)
      end
  end.

(** Monadic [map], for callbacks that read properties. *)
Fixpoint mapM {A B : Type} (f : A -> completion B) (l : list A)
  : completion (list B) :=
  match l with
  | [] => Return []
  | x :: l' => y <- f x ;; ys <- mapM f l' ;; Return (y :: ys)
  end.

End Js.
Import Js.

(* ================================================================== *)
(** * [extractTextFromApiResponse] *)
(* ================================================================== *)
Module Normalizer.

Definition LF : str := ["010"%char].

(** [o.content.map(c => (c.text || c))] *)
Definition textOrSelf (c : value) : completion value :=
  t <- get c f_text ;;
  Return (if truthy t then t else c).

(** The [data.output] probe; [None] when control leaves the block
    without returning. *)
Definition probeOutput (data : value) : completion (option value) :=
  output <- get data f_output ;;
  len <- (if truthy output && isArray output then get output f_length
          else Return VUndefined) ;;
  if truthy output && isArray output && truthy len then
    o <- get output f_0 ;;
    if isString o then Return (Some o)
    else
      content <- get o f_content ;;
      if truthy content then
        if isString content then Return (Some content)
        else
          match content with
          | VArr parts =>
              texts <- mapM textOrSelf parts ;;
              joined <- joinValues LF texts ;;
              Return (Some (VStr joined))
          | _ => Return None
          end
      else Return None
  else Return None.

(** The [data.choices] probe. *)
Definition probeChoices (data : value) : completion (option value) :=
  choices <- get data f_choices ;;
  len <- (if truthy choices then get choices f_length
          else Return VUndefined) ;;
  if truthy choices && truthy len then
    ch <- get choices f_0 ;;
    text <- get ch f_text ;;
    if truthy text then Return (Some text)
    else
      message <- get ch f_message ;;
      content <- (if truthy message then get message f_content
                  else Return VUndefined) ;;
      if truthy message && truthy content then Return (Some content)
      else Return None
  else Return None.

(** The probes, in source order, on [data]. *)
Definition extractFrom (data : value) : completion value :=
  if isString data then Return data
  else
    output_text <- get data f_output_text ;;
    if truthy output_text then Return output_text
    else
      fromOutput <- probeOutput data ;;
      match fromOutput with
      | Some v => Return v
      | None =>
          fromChoices <- probeChoices data ;;
          match fromChoices with
          | Some v => Return v
          | None => Return (JSON_stringify data)
          end
      end.

(** The body of the [try] block; [data] is [resp.data || resp]. *)
Definition extractBody (resp : value) : completion value :=
  if negb (truthy resp) then Return (VStr [])
  else
    respData <- get resp f_data ;;
    extractFrom (if truthy respData then respData else resp).

(** [try { ... } catch (e) { return ''; }] *)
Definition extractTextFromApiResponse (resp : value) : value :=
  match extractBody resp with
  | Return v => v
  | Throw => VStr []
  end.

End Normalizer.
Import Normalizer.

(* ================================================================== *)
(** * The controller [check]: text selection and result assembly *)
(* ================================================================== *)
Module Controller.

Definition cannedFallback : str := lit "No clear brand mentions found.".

(** [parts.filter((p) => p.text).map((p) => p.text).join("\n")]; a value
    that is not an array has no callable [filter]. *)
Definition joinPartTexts (parts : value) : completion value :=
  match parts with
  | VArr ps =>
      texts <- mapM (fun p => get p f_text) ps ;;
      joined <- joinValues Normalizer.LF (filter truthy texts) ;;
      Return (VStr joined)
  | _ => Throw
  end.

(** The branch taken when [d.candidates && d.candidates.length] holds. *)
Definition candidateText (candidate : value) : completion value :=
  content <- get candidate f_content ;;
  parts <- (if truthy content then get content f_parts
            else Return VUndefined) ;;
  len <- (if truthy content && truthy parts then get parts f_length
          else Return VUndefined) ;;
  if truthy content && truthy parts && truthy len then joinPartTexts parts
  else
    text <- get candidate f_text ;;
    if truthy text then Return text
    else
      output <- get candidate f_output ;;
      if truthy output then Return output
      else if truthy content then
        if isString content then Return content
        else
          ctext <- get content f_text ;;
          if truthy ctext then Return ctext
          else Return (JSON_stringify content)
      else
        Return (if truthy text then text
                else if truthy output then output
                else JSON_stringify candidate).

(** The text the controller derives from the provider response
    ([apiResp], or [null] when there is none). *)
Definition responseText (apiResp : value) : completion value :=
  d <- (if truthy apiResp then get apiResp f_data else Return VUndefined) ;;
  if truthy apiResp && truthy d then
    candidates <- get d f_candidates ;;
    len <- (if truthy candidates then get candidates f_length
            else Return VUndefined) ;;
    if truthy candidates && truthy len then
      candidate <- get candidates f_0 ;;
      candidateText candidate
    else
      result <- get d f_result ;;
      output <- (if truthy result then get result f_output
                 else Return VUndefined) ;;
      if truthy result && truthy output then Return output
      else Return (extractTextFromApiResponse apiResp)
  else Return (VStr cannedFallback).

(** The fields of the response body that report the match. *)
Record MatchResult : Type := {
  mentioned : value;
  positions : list number;
  position : option number   (* [None] is [null] *)
}.

(** [mentioned], [positions] and [position] as [check] computes them. *)
Definition matchResult (items : list str) (brand : str) : MatchResult :=
  let positions := findBrandPositions items brand in
  {| mentioned := if 0 <? length positions then VStr (lit "Yes")
                  else VStr (lit "No");
     positions := positions;
     position := if 0 <? length positions then nth_error positions 0
                 else None |}.

(** Lines 84 to 87 of the controller, from the selected text. *)
Definition check (text brand : str) : MatchResult :=
  matchResult (splitIntoItems text) brand.

End Controller.
Import Controller.

(* ================================================================== *)
(** * Predicates the statements use *)
(* ================================================================== *)
Module Props.

(** Order of Numbers, [Infinity] above every finite one. *)
Definition numLeb (x y : number) : bool :=
  match x, y with
  | Finite a, Finite b => (a <=? b)%Z
  | _, Infinity => true
  | Infinity, Finite _ => false
  end.

(** Each entry is at most the next one. *)
Fixpoint ascending (l : list number) : bool :=
  match l with
  | [] => true
  | x :: l' =>
      match l' with
      | [] => true
      | y :: _ => numLeb x y && ascending l'
      end
  end.

(** A token whose cleaned form has one or two characters. *)
Definition shortToken (t : str) : bool :=
  (1 <=? length t) && (length t <=? 2).




(** An object without a truthy [output_text], [output] or [choices]. *)
Definition noTextProbe (props : list (str * value)) : bool :=
  negb (truthy (lookup (lit "output_text") props))
  && negb (truthy (lookup (lit "output") props))
  && negb (truthy (lookup (lit "choices") props)).

(** An object none of whose probed properties is truthy. *)
Definition unrecognized (props : list (str * value)) : bool :=
  negb (truthy (lookup (lit "data") props)) && noTextProbe props.

(** [resp.data || resp] *)
Definition payloadOf (resp : value) : value :=
  match get resp f_data with
  | Return d => if truthy d then d else resp
  | Throw => resp
  end.

(** [v.f1.f2...] *)
Fixpoint path (v : value) (fs : list field) : completion value :=
  match fs with
  | [] => Return v
  | f :: fs' => x <- get v f ;; path x fs'
  end.






End Props.
Import Props.

(* ================================================================== *)
(** * The tests of the item loop, named *)
(* ================================================================== *)
Module MatchSpec.


(** The exact or the substring test of the loop body succeeds. *)
Definition exactOrSubstring (brand item : str) : bool :=
  regexTest brand item || includes (toLowerCase item) (toLowerCase brand).

(** The token loop finds a non-empty cleaned token within the bound. *)
Definition fuzzyMatches (brand item : str) : bool :=
  existsb (fun t => nonEmpty t
                    && fuzzyAccepts t (stripNonAlnum (toLowerCase brand)))
          (map stripNonAlnum (splitSpaces item)).

Definition itemMatches (brand item : str) : bool :=
  exactOrSubstring brand item || fuzzyMatches brand item.

(** [currentRank] once the marker of [item], if any, has been read. *)
Definition rankAfter (item : str) (rank : number) : number :=
  match numMatch item with
  | Some digits => parseInt digits
  | None => rank
  end.

(** What a matching item records. *)
Definition entryFor (brand : str) (i : nat) (item : str) (rank : number)
  : number :=
  if exactOrSubstring brand item && rankActive (rankAfter item rank)
  then rankAfter item rank
  else lineIndex i.

(** A rank is zero or was parsed from the marker of some item of [all]. *)
Definition rankFromText (all : list str) (r : number) : Prop :=
  r = Finite 0
  \/ exists item digits,
       In item all /\ numMatch item = Some digits /\ r = parseInt digits.

(** An entry is the 1-based index of an item of [all], or a rank that is
    active and was parsed from the marker of one. *)
Definition entryFromText (all : list str) (p : number) : Prop :=
  (exists i, i < length all /\ p = lineIndex i)
  \/ (rankActive p = true
      /\ exists item digits,
           In item all /\ numMatch item = Some digits /\ p = parseInt digits).

(** A Number that is at least one. *)
Definition positive (p : number) : Prop :=
  match p with
  | Finite z => (1 <= z)%Z
  | Infinity => True
  end.

(** The entries recorded from index [i] on, in item order, when the scan
    reaches the items with [rank] as its current rank. *)
Fixpoint entriesFrom (brand : str) (i : nat) (items : list str)
    (rank : number) : list number :=
  match items with
  | [] => []
  | item :: rest =>
      (if itemMatches brand item then [entryFor brand i item rank] else [])
      ++ entriesFrom brand (S i) rest (rankAfter item rank)
  end.

(** A code unit of the ASCII range. *)
Definition isAscii (c : ascii) : bool := code c <? 128.

(** Two characters whose lower-case forms are equal, as the substitution
    cost compares them. *)
Definition sameCase (x y : ascii) : Prop :=
  toLowerCaseChar x = toLowerCaseChar y.

End MatchSpec.
Import MatchSpec.

(* ================================================================== *)
(** * Shapes of output parts *)
(* ================================================================== *)
Module Shapes.

(** The text an element of an output content array contributes when it
    is a string, or an object whose [text] is a non-empty string. *)
Definition outputPartText (p : value) : option str :=
  match p with
  | VStr s => Some s
  | VObj props =>
      match lookup (lit "text") props with
      | VStr (c :: s) => Some (c :: s)
      | _ => None
      end
  | _ => None
  end.



End Shapes.
Import Shapes.

(* ================================================================== *)
(** * The [catch] block of [check]: reason detection and status *)
(* ================================================================== *)
Module ErrorReply.

(** The property names the handler reads from the thrown value and from
    the provider's error body. *)
Inductive errField : Type :=
  | e_response | e_data | e_status | e_error | e_details | e_reason
  | e_type | e_message.

Definition errFieldName (f : errField) : str :=
  match f with
  | e_response => lit "response"
  | e_data => lit "data"
  | e_status => lit "status"
  | e_error => lit "error"
  | e_details => lit "details"
  | e_reason => lit "reason"
  | e_type => lit "@type"
  | e_message => lit "message"
  end.

(** [v.f] for these names: none is inherited by a primitive, an array or
    a plain object. *)
Definition read (v : value) (f : errField) : completion value :=
  match v with
  | VUndefined | VNull => Throw
  | VObj props => Return (lookup (errFieldName f) props)
  | _ => Return VUndefined
  end.

(** [err && err.response && err.response.f ? err.response.f : undefined] *)
Definition responseField (err : value) (f : errField) : completion value :=
  response <- (if truthy err then read err e_response
               else Return VUndefined) ;;
  x <- (if truthy err && truthy response then read response f
        else Return VUndefined) ;;
  Return (if truthy err && truthy response && truthy x then x
          else VUndefined).

(** [details.find((x) => x.reason || (x["@type"] && x.reason))] *)
Fixpoint findReason (details : list value) : completion value :=
  match details with
  | [] => Return VUndefined
  | x :: rest =>
      reason <- read x e_reason ;;
      if truthy reason then Return x
      else
        type <- read x e_type ;;
        again <- (if truthy type then read x e_reason else Return type) ;;
        if truthy again then Return x else findReason rest
  end.

(** The first [if] of the [try] block: the value assigned to
    [providerReason], [undefined] when the block is skipped. *)
Definition reasonFromDetails (providerDetail : value) : completion value :=
  error <- (if truthy providerDetail then read providerDetail e_error
            else Return VUndefined) ;;
  details <- (if truthy providerDetail && truthy error
              then read error e_details else Return VUndefined) ;;
  if truthy providerDetail && truthy error && isArray details then
    match details with
    | VArr l =>
        d <- findReason l ;;
        if truthy d then read d e_reason else Return d
    | _ => Return VUndefined
    end
  else Return VUndefined.

Definition mentionsApiKey (m : str) : bool :=
  includes m (lit "api key") || includes m (lit "api_key")
  || includes m (lit "api-key").

(** The second [if]: [providerReason] after it, from its value before.
    A truthy message that is not a string has no [toLowerCase]. *)
Definition reasonFromMessage (providerDetail providerReason : value)
  : completion value :=
  error <- (if negb (truthy providerReason) && truthy providerDetail
            then read providerDetail e_error else Return VUndefined) ;;
  message <- (if negb (truthy providerReason) && truthy providerDetail
                 && truthy error
              then read error e_message else Return VUndefined) ;;
  if negb (truthy providerReason) && truthy providerDetail && truthy error
     && truthy message then
    match message with
    | VStr s =>
        if mentionsApiKey (toLowerCase s)
        then Return (VStr (lit "API_KEY_INVALID"))
        else Return providerReason
    | _ => Throw
    end
  else Return providerReason.

(** [providerReason] after [try { ... } catch (e) {}]: an exception
    leaves the last value assigned. *)
Definition providerReasonOf (providerDetail : value) : value :=
  match reasonFromDetails providerDetail with
  | Throw => VUndefined
  | Return r1 =>
      match reasonFromMessage providerDetail r1 with
      | Throw => r1
      | Return r2 => r2
      end
  end.

(** [providerReason === "API_KEY_INVALID"] *)
Definition keyInvalid (providerReason : value) : bool :=
  match providerReason with
  | VStr s => str_eqb s (lit "API_KEY_INVALID")
  | _ => false
  end.

(** The message that the reply renders into its [raw_text]:
    [providerDetail.error.message] when the provider sent an error object,
    and [err.message] otherwise. *)
Definition renderedMessage (err : value) : completion value :=
  providerDetail <- responseField err e_data ;;
  error <- (if truthy providerDetail then read providerDetail e_error
            else Return VUndefined) ;;
  if truthy providerDetail && truthy error then read error e_message
  else if truthy err then read err e_message
  else Return VUndefined.

(** The status of the error reply: [401], or [providerStatus || 500].
    Before it replies the handler builds [raw_text] with template
    literals, outside any [try]: the ToString of the message they embed
    can throw, and then no reply is made.  [response.status] is the
    numeric status code of the HTTP response, whose rendering in
    [`${providerStatus || "N/A"}`] cannot throw. *)
Definition errorStatus (err : value) : completion value :=
  providerDetail <- responseField err e_data ;;
  providerStatus <- responseField err e_status ;;
  error <- (if truthy providerDetail then read providerDetail e_error
            else Return VUndefined) ;;
  if keyInvalid (providerReasonOf providerDetail) then
    errorMsg <- (if truthy providerDetail && truthy error
                 then read error e_message
                 else Return (VStr (lit "API key expired or invalid"))) ;;
    _ <- toString errorMsg ;;
    Return (VNum (lit "401"))
  else
    _ <- (if truthy providerDetail && truthy error then
            message <- read error e_message ;;
            toString (if truthy message then message
                      else VStr (lit "Unknown error"))
          else
            message <- (if truthy err then read err e_message
                        else Return VUndefined) ;;
            toString (if truthy err && truthy message then message
                      else VStr (lit "Unknown error"))) ;;
    Return (if truthy providerStatus then providerStatus
            else VNum (lit "500")).

(** An element of [details] that is neither [null] nor [undefined] and
    has no truthy [reason]. *)
Definition noReason (x : value) : bool :=
  match x with
  | VObj props => negb (truthy (lookup (lit "reason") props))
  | VUndefined | VNull => false
  | _ => true
  end.

End ErrorReply.
Import ErrorReply.

(* ================================================================== *)
(** * Properties of the edit distance *)
(* ================================================================== *)
Section LevenshteinFacts.

Lemma substitutionCost_sym x y : substitutionCost x y = substitutionCost y x.
Proof.
  unfold substitutionCost. now rewrite Ascii.eqb_sym.
Qed.

Lemma dist_nil_r x : dist x [] = length x.
Proof. destruct x; reflexivity. Qed.

Lemma dist_nil_l y : dist [] y = length y.
Proof. destruct y; reflexivity. Qed.

Lemma dist_cons c x e y :
  dist (c :: x) (e :: y)
  = min3 (dist x (e :: y) + 1) (dist (c :: x) y + 1)
         (dist x y + substitutionCost c e).
Proof. reflexivity. Qed.

Lemma dist_sym : forall x y, dist x y = dist y x.
Proof.
  induction x as [|c x IHx]; intro y.
  - now rewrite dist_nil_r, dist_nil_l.
  - induction y as [|e y IHy]; [reflexivity|].
    rewrite !dist_cons, IHy, (IHx (e :: y)), (IHx y), substitutionCost_sym.
    unfold min3. lia.
Qed.

Lemma first_row_spec : forall a pre,
  seq (length pre) (length a + 1) = row_of pre a [].
Proof.
  induction a as [|c a IH]; intro pre; cbn [length Nat.add seq row_of].
  - now rewrite dist_nil_r.
  - rewrite dist_nil_r. f_equal. exact (IH (c :: pre)).
Qed.

Lemma fill_row_spec : forall a bj y pre,
  fill_row a bj (dist pre (bj :: y)) (row_of pre a y)
  = tl (row_of pre a (bj :: y)).
Proof.
  induction a as [|c a IH]; intros bj y pre; [reflexivity|].
  cbn [row_of tl fill_row].
  destruct a as [|c' a'] eqn:Ea; cbn [row_of]; rewrite <- Ea.
  - subst a. reflexivity.
  - assert (Hcell : min3 (dist pre (bj :: y) + 1) (dist (c :: pre) y + 1)
                      (dist pre y + substitutionCost c bj)
                    = dist (c :: pre) (bj :: y)) by (now rewrite dist_cons).
    subst a. cbn [row_of] in *. cbn zeta. rewrite Hcell.
    f_equal. exact (IH bj y (c :: pre)).
Qed.

Lemma fill_rows_spec : forall b a y,
  fill_rows a b (S (length y)) (row_of [] a y) = rows_of a b y.
Proof.
  induction b as [|bj b IH]; intros a y; [reflexivity|].
  cbn [fill_rows rows_of].
  assert (Hrow : S (length y) :: fill_row a bj (S (length y)) (row_of [] a y)
                 = row_of [] a (bj :: y)).
  { change (S (length y)) with (dist [] (bj :: y)).
    rewrite fill_row_spec. destruct a; reflexivity. }
  cbn zeta. rewrite Hrow. f_equal. exact (IH a (bj :: y)).
Qed.

Lemma matrix_spec a b : matrix a b = row_of [] a [] :: rows_of a b [].
Proof.
  unfold matrix, first_row.
  pose proof (first_row_spec a []) as Hfirst. cbn [length] in Hfirst.
  rewrite Hfirst. f_equal. apply (fill_rows_spec b a []).
Qed.

Lemma nth_rows_of : forall b a y,
  nth (length b) (row_of [] a y :: rows_of a b y) [] = row_of [] a (rev b ++ y).
Proof.
  induction b as [|bj b IH]; intros a y; [reflexivity|].
  cbn [length nth rows_of rev]. rewrite <- app_assoc. exact (IH a (bj :: y)).
Qed.

Lemma nth_row_of : forall a pre y,
  nth (length a) (row_of pre a y) 0 = dist (rev a ++ pre) y.
Proof.
  induction a as [|c a IH]; intros pre y; [reflexivity|].
  cbn [length row_of nth rev]. rewrite <- app_assoc. exact (IH (c :: pre) y).
Qed.

(** The matrix code computes the recurrence at the two whole strings. *)
Lemma levenshtein_dist a b : levenshtein a b = dist (rev a) (rev b).
Proof.
  unfold levenshtein.
  destruct a as [|c a].
  - cbn [nonEmpty negb rev]. now rewrite dist_nil_l, length_rev.
  - destruct b as [|e b].
    + cbn [nonEmpty negb]. change (rev (@nil ascii)) with (@nil ascii).
      now rewrite dist_nil_r, length_rev.
    + cbn [nonEmpty negb]. rewrite matrix_spec, nth_rows_of, nth_row_of.
      now rewrite !app_nil_r.
Qed.

End LevenshteinFacts.

(** C9. [levenshtein] is symmetric in its two arguments, and the distance
    from the empty string to [s] is the length of [s]. *)
Theorem levenshtein_symmetric_and_empty :
  (forall a b : str, levenshtein a b = levenshtein b a) /\
  (forall s : str, levenshtein [] s = length s).
Proof.
  split.
  - intros a b. rewrite !levenshtein_dist. apply dist_sym.
  - intro s. reflexivity.
Qed.


(* ================================================================== *)
(** * Properties of the matcher *)
(* ================================================================== *)
Section MatcherFacts.

Variable brand : str.

Lemma fuzzyLoop_cases : forall tokens brandClean i ps,
  fuzzyLoop tokens brandClean i ps = ps
  \/ fuzzyLoop tokens brandClean i ps = push ps (lineIndex i).
Proof.
  induction tokens as [|t tokens IH]; intros brandClean i ps; cbn [fuzzyLoop].
  - now left.
  - destruct (negb (nonEmpty t)); [apply IH|].
    destruct (fuzzyAccepts t brandClean); [now right | apply IH].
Qed.

Lemma pushRanked_cases i rank ps :
  pushRanked i rank ps = push ps rank
  \/ pushRanked i rank ps = push ps (lineIndex i).
Proof.
  unfold pushRanked. destruct (rankActive rank); [now left | now right].
Qed.

(** One iteration appends nothing or a single entry. *)
Lemma loopBody_appends i item st :
  exists l, Matcher.positions (loopBody brand i item st)
            = Matcher.positions st ++ l
            /\ length l <= 1.
Proof.
  unfold loopBody.
  set (rank := match numMatch item with
               | Some digits => parseInt digits
               | None => currentRank st
               end).
  destruct (regexTest brand item);
    [|destruct (includes (toLowerCase item) (toLowerCase brand))];
    cbn [Matcher.positions].
  1,2: destruct (pushRanked_cases i rank (Matcher.positions st)) as [-> | ->];
       eexists; (split; [reflexivity | cbn; lia]).
  match goal with
  | |- context [fuzzyLoop ?ts ?bc i ?ps] =>
      destruct (fuzzyLoop_cases ts bc i ps) as [-> | ->]
  end.
  - exists []. rewrite app_nil_r. split; [reflexivity | cbn; lia].
  - eexists; split; [reflexivity | cbn; lia].
Qed.

Lemma loopFrom_length : forall items i st,
  length (Matcher.positions (loopFrom brand i items st))
  <= length (Matcher.positions st) + length items.
Proof.
  induction items as [|item items IH]; intros i st; cbn [loopFrom length].
  - lia.
  - specialize (IH (S i) (loopBody brand i item st)).
    destruct (loopBody_appends i item st) as (l & Hl & Hlen).
    rewrite Hl, length_app in IH. lia.
Qed.

(** Without a list marker and with no rank seen so far, an iteration
    keeps the rank at zero and records nothing but the line index. *)
Lemma loopBody_unranked i item ps :
  numMatch item = None ->
  loopBody brand i item (Scan ps (Finite 0)) = Scan ps (Finite 0)
  \/ loopBody brand i item (Scan ps (Finite 0))
     = Scan (push ps (lineIndex i)) (Finite 0).
Proof.
  intro Hnum. unfold loopBody. rewrite Hnum. cbn [currentRank Matcher.positions].
  destruct (regexTest brand item); [now right|].
  destruct (includes (toLowerCase item) (toLowerCase brand)); [now right|].
  match goal with
  | |- context [fuzzyLoop ?ts ?bc i ps] =>
      destruct (fuzzyLoop_cases ts bc i ps) as [-> | ->]
  end; [now left | now right].
Qed.

Lemma loopFrom_unranked : forall items i ps,
  Forall (fun item => numMatch item = None) items ->
  exists zs,
    Matcher.positions (loopFrom brand i items (Scan ps (Finite 0)))
    = ps ++ map Finite zs
    /\ Sorted.StronglySorted Z.lt zs
    /\ Forall (fun z => (Z.of_nat i + 1 <= z <= Z.of_nat (i + length items))%Z) zs.
Proof.
  induction items as [|item items IH]; intros i ps Hall; cbn [loopFrom length].
  - exists []. cbn. rewrite app_nil_r. repeat split; constructor.
  - inversion Hall as [|? ? Hitem Hrest]; subst.
    destruct (loopBody_unranked i item ps Hitem) as [-> | ->].
    + destruct (IH (S i) ps Hrest) as (zs & Hpos & Hsorted & Hbound).
      exists zs. repeat split; auto.
      eapply Forall_impl; [|exact Hbound]. cbn beta. lia.
    + destruct (IH (S i) (push ps (lineIndex i)) Hrest)
        as (zs & Hpos & Hsorted & Hbound).
      exists ((Z.of_nat i + 1)%Z :: zs). repeat split.
      * rewrite Hpos. unfold push, lineIndex. now rewrite <- app_assoc.
      * constructor; auto.
        eapply Forall_impl; [|exact Hbound]. cbn beta. lia.
      * constructor; [lia|].
        eapply Forall_impl; [|exact Hbound]. cbn beta. lia.
Qed.

Lemma ascending_strictly : forall zs,
  Sorted.StronglySorted Z.lt zs -> ascending (map Finite zs) = true.
Proof.
  induction zs as [|z zs IH]; intro Hs; [reflexivity|].
  inversion Hs as [|? ? Hs' Hall]; subst.
  destruct zs as [|z' zs']; [reflexivity|].
  cbn [map ascending numLeb]. apply andb_true_intro. split.
  - inversion Hall; subst. apply Z.leb_le. lia.
  - exact (IH Hs').
Qed.



End MatcherFacts.




(** C3 fails as stated: the ranks come from the text, and a list numbered
    downwards yields a descending sequence. *)
Lemma positions_not_ascending :
  findBrandPositions [lit "2. Acme"; lit "1. Acme"] (lit "Acme")
  = [Finite 2; Finite 1]
  /\ ascending (findBrandPositions [lit "2. Acme"; lit "1. Acme"] (lit "Acme"))
     = false.
Proof. vm_compute. split; reflexivity. Qed.

(** C5. On [1. Acme Corp], [2. Other Co], [Acme again] and the brand
    [Acme] the positions are [1, 2]: the second item matches nothing and
    leaves the rank at 2, which the unnumbered third item then records in
    place of its index 3. *)
Theorem numbered_rank_carry_over :
  let brand := lit "Acme" in
  let after1 := loopBody brand 0 (lit "1. Acme Corp") (Scan [] (Finite 0)) in
  let after2 := loopBody brand 1 (lit "2. Other Co") after1 in
  let after3 := loopBody brand 2 (lit "Acme again") after2 in
  after1 = Scan [Finite 1] (Finite 1)
  /\ after2 = Scan [Finite 1] (Finite 2)
  /\ numMatch (lit "Acme again") = None
  /\ after3 = Scan [Finite 1; Finite 2] (Finite 2)
  /\ findBrandPositions
       [lit "1. Acme Corp"; lit "2. Other Co"; lit "Acme again"] brand
     = [Finite 1; Finite 2].
Proof. vm_compute. repeat split. Qed.

(** C10. An iteration of the item loop appends at most one entry to
    [positions], whichever steps succeed and however often the brand
    occurs in the item; so there are at most as many positions as items. *)
Theorem one_position_per_item :
  (forall (brand : str) (i : nat) (item : str) (st : scan),
     exists l, Matcher.positions (loopBody brand i item st)
               = Matcher.positions st ++ l
               /\ length l <= 1)
  /\ (forall (items : list str) (brand : str),
        length (findBrandPositions items brand) <= length items).
Proof.
  split.
  - intros; apply loopBody_appends.
  - intros items brand. unfold findBrandPositions.
    apply (loopFrom_length brand items 0 (Scan [] (Finite 0))).
Qed.

(** C6 (as the code has it). [mentioned] is the string [Yes] exactly when
    [positions] is non-empty and the string [No] otherwise; [position] is
    the first element of [positions], or [null] when there is none; an
    empty item sequence gives [No], no positions and [null]. *)
Theorem match_result_fields :
  (forall (items : list str) (brand : str),
     let r := matchResult items brand in
     Controller.positions r = findBrandPositions items brand
     /\ (mentioned r = VStr (lit "Yes") <-> Controller.positions r <> [])
     /\ (mentioned r = VStr (lit "No") <-> Controller.positions r = [])
     /\ position r = hd_error (Controller.positions r))
  /\ (forall brand : str,
        matchResult [] brand
        = {| mentioned := VStr (lit "No");
             Controller.positions := [];
             position := None |}).
Proof.
  split; [|reflexivity].
  intros items brand. unfold matchResult.
  cbn [Controller.positions mentioned position].
  destruct (findBrandPositions items brand) as [|p ps]; cbn.
  - repeat split; intros; congruence.
  - repeat split; intros; congruence.
Qed.

(** C6 fails as stated: over an empty item sequence [mentioned] is the
    string [No], which is not the boolean [false] and is a truthy value
    although [positions] is empty. *)
Lemma mentioned_is_not_boolean :
  mentioned (matchResult [] (lit "Acme")) = VStr (lit "No")
  /\ mentioned (matchResult [] (lit "Acme")) <> VBool false
  /\ truthy (mentioned (matchResult [] (lit "Acme"))) = true
  /\ Controller.positions (matchResult [] (lit "Acme")) = [].
Proof. repeat split. discriminate. Qed.

(** C7. When the split on line breaks leaves at most one trimmed,
    non-empty line, [splitIntoItems] returns the trimmed, non-empty fields
    of the text split at commas, semicolons and line feeds;
    [Acme, Globex, Initech] gives its three names, the empty text gives no
    item. *)
Theorem segmentation_fallback :
  (forall text : str,
     length (trimmedNonEmpty (splitLines text)) <= 1 ->
     splitIntoItems text = trimmedNonEmpty (splitSeps text))
  /\ splitIntoItems (lit "Acme, Globex, Initech")
     = [lit "Acme"; lit "Globex"; lit "Initech"]
  /\ splitIntoItems [] = [].
Proof.
  split; [|split; reflexivity].
  intros text Hlines. unfold splitIntoItems.
  destruct text as [|c text]; [reflexivity|].
  cbn [nonEmpty negb].
  apply Nat.leb_le in Hlines. now rewrite Hlines.
Qed.

Lemma segmentation_fallback_witness :
  splitIntoItems (lit "Acme; Globex,Initech")
  = trimmedNonEmpty (splitSeps (lit "Acme; Globex,Initech")).
Proof.
  apply (proj1 segmentation_fallback (lit "Acme; Globex,Initech")).
  vm_compute. lia.
Defined.

(* ================================================================== *)
(** * Properties of the normalizer and of the controller's text selection *)
(* ================================================================== *)
Section NormalizerFacts.

Lemma get_truthy v f : truthy v = true -> exists x, get v f = Return x.
Proof.
  destruct v; cbn; try discriminate; intros _; eexists; reflexivity.
Qed.

Lemma get_object props f : get (VObj props) f = Return (lookup (fieldName f) props).
Proof. reflexivity. Qed.

Lemma stringify_defined v : v <> VUndefined -> exists t, stringify v = Some t.
Proof.
  destruct v; intro Hv; try (eexists; reflexivity). congruence.
Qed.

Lemma JSON_stringify_string v :
  truthy v = true -> isString (JSON_stringify v) = true.
Proof.
  intro Hv. unfold JSON_stringify.
  destruct (stringify_defined v) as (t & ->); [|reflexivity].
  intros ->. discriminate.
Qed.

(** Falling through every probe. *)
Lemma extractFrom_fallback props :
  noTextProbe props = true ->
  extractFrom (VObj props) = Return (JSON_stringify (VObj props)).
Proof.
  unfold noTextProbe. intro H.
  apply andb_prop in H as [H Hchoices]. apply andb_prop in H as [Htext Hout].
  apply negb_true_iff in Htext, Hout, Hchoices.
  unfold extractFrom, probeOutput, probeChoices.
  cbn [isString]. rewrite !get_object.
  cbn [fieldName bind]. rewrite Htext. cbn [bind]. rewrite Hout.
  cbn [andb bind]. rewrite Hchoices. reflexivity.
Qed.

Lemma extract_payload resp :
  truthy resp = true ->
  extractBody resp = extractFrom (payloadOf resp).
Proof.
  intro Hresp. unfold extractBody, payloadOf. rewrite Hresp. cbn [negb].
  destruct (get_truthy resp f_data Hresp) as (d & ->). reflexivity.
Qed.

Lemma payloadOf_truthy resp : truthy resp = true -> truthy (payloadOf resp) = true.
Proof.
  intro Hresp. unfold payloadOf.
  destruct (get resp f_data) as [d|]; [|assumption].
  destruct (truthy d) eqn:Hd; assumption.
Qed.

Lemma joinValues_strings sep : forall ss,
  joinValues sep (map VStr ss) = Return (join sep ss).
Proof.
  induction ss as [|s ss IH]; [reflexivity|].
  cbn [map joinValues toString bind].
  destruct ss as [|s' ss']; [reflexivity|].
  cbn [map] in *. rewrite IH. reflexivity.
Qed.


Lemma probeOutput_string data v :
  probeOutput data = Return (Some v) -> isString v = true.
Proof.
  unfold probeOutput. intro H.
  destruct (get data f_output) as [output|]; [|discriminate]. cbn [bind] in H.
  destruct (truthy output && isArray output) eqn:Harr; cbn [andb] in H.
  2: { discriminate. }
  destruct (get output f_length) as [len|]; [|discriminate]. cbn [bind] in H.
  destruct (truthy len); [|discriminate].
  destruct (get output f_0) as [o|]; [|discriminate]. cbn [bind] in H.
  destruct (isString o) eqn:Ho; [congruence|].
  destruct (get o f_content) as [content|]; [|discriminate]. cbn [bind] in H.
  destruct (truthy content); [|discriminate].
  destruct (isString content) eqn:Hc; [congruence|].
  destruct content as [| | | | |parts|]; try discriminate.
  destruct (mapM textOrSelf parts) as [texts|]; [|discriminate].
  cbn [bind] in H.
  destruct (joinValues Normalizer.LF texts) as [joined|]; [|discriminate].
  cbn [bind] in H. inversion H. reflexivity.
Qed.

Lemma probeChoices_field data v :
  probeChoices data = Return (Some v) ->
  truthy v = true
  /\ (path data [f_choices; f_0; f_text] = Return v
      \/ path data [f_choices; f_0; f_message; f_content] = Return v).
Proof.
  unfold probeChoices. intro H. cbn [path].
  destruct (get data f_choices) as [choices|]; [|discriminate].
  cbn [bind] in *.
  destruct (truthy choices) eqn:Hch; cbn [andb] in H; [|discriminate].
  destruct (get choices f_length) as [len|]; [|discriminate]. cbn [bind] in H.
  destruct (truthy len); [|discriminate].
  destruct (get choices f_0) as [ch|]; [|discriminate]. cbn [bind] in *.
  destruct (get ch f_text) as [text|]; [|discriminate]. cbn [bind] in *.
  destruct (truthy text) eqn:Htext.
  - inversion H; subst. split; [assumption | now left].
  - destruct (get ch f_message) as [message|]; [|discriminate].
    cbn [bind] in *.
    destruct (truthy message) eqn:Hm; cbn [andb] in H.
    + destruct (get message f_content) as [content|]; [|discriminate].
      cbn [bind] in *.
      destruct (truthy content) eqn:Hc; [|discriminate].
      inversion H; subst. split; [assumption | now right].
    + cbn [bind] in H. discriminate.
Qed.

Lemma extractFrom_result data v :
  truthy data = true ->
  extractFrom data = Return v ->
  isString v = true
  \/ (truthy v = true
      /\ (path data [f_output_text] = Return v
          \/ path data [f_choices; f_0; f_text] = Return v
          \/ path data [f_choices; f_0; f_message; f_content] = Return v)).
Proof.
  intros Hdata H. unfold extractFrom in H.
  destruct (isString data) eqn:Hs.
  { inversion H; subst. now left. }
  destruct (get data f_output_text) as [output_text|] eqn:Hot; [|discriminate].
  cbn [bind] in H.
  destruct (truthy output_text) eqn:Htext.
  { inversion H; subst. right. split; [assumption|].
    left. cbn [path]. rewrite Hot. reflexivity. }
  destruct (probeOutput data) as [[o|]|] eqn:Hout; cbn [bind] in H;
    try discriminate.
  { inversion H; subst. left. eapply probeOutput_string; eassumption. }
  destruct (probeChoices data) as [[c|]|] eqn:Hch; cbn [bind] in H;
    try discriminate.
  - inversion H; subst.
    destruct (probeChoices_field data v Hch) as [Hv Hpath].
    right. split; [assumption | now right].
  - inversion H; subst. left. now apply JSON_stringify_string.
Qed.

End NormalizerFacts.

Section ControllerFacts.

Lemma decimal_zero_only n : decimal n = lit "0" -> n = 0.
Proof.
  unfold decimal, lit. intro H.
  apply (f_equal string_of_list_ascii) in H.
  rewrite !string_of_list_ascii_of_string in H.
  rewrite <- (DecimalNat.Unsigned.of_to n).
  destruct (Nat.to_uint n) as [|d|d|d|d|d|d|d|d|d|d]; try discriminate;
    try reflexivity.
  destruct d; try discriminate. reflexivity.
Qed.

Lemma truthy_length n : truthy (VNum (decimal n)) = negb (n =? 0).
Proof.
  destruct n as [|n]; [reflexivity|].
  cbn [truthy Nat.eqb negb]. unfold str_eqb.
  destruct (list_eq_dec ascii_dec (decimal (S n)) (lit "0")) as [E|E];
    [|reflexivity].
  apply decimal_zero_only in E. discriminate.
Qed.




End ControllerFacts.


(** C8 (as the code has it). [extractTextFromApiResponse] never throws:
    an exception inside its body yields the empty string.  An object with
    no truthy [data], [output_text], [output] or [choices] normalizes to
    its stringified form.  The result is a string, except that a truthy
    value found at [output_text], at [choices[0].text] or at
    [choices[0].message.content] of the payload is returned as it is,
    string or not. *)
Theorem normalizer_total (resp : value) :
  (extractBody resp = Throw -> extractTextFromApiResponse resp = VStr [])
  /\ (forall props,
        resp = VObj props -> unrecognized props = true ->
        extractTextFromApiResponse resp = JSON_stringify resp
        /\ isString (extractTextFromApiResponse resp) = true)
  /\ (isString (extractTextFromApiResponse resp) = true
      \/ (truthy (extractTextFromApiResponse resp) = true
          /\ (path (payloadOf resp) [f_output_text]
              = Return (extractTextFromApiResponse resp)
              \/ path (payloadOf resp) [f_choices; f_0; f_text]
                 = Return (extractTextFromApiResponse resp)
              \/ path (payloadOf resp) [f_choices; f_0; f_message; f_content]
                 = Return (extractTextFromApiResponse resp)))).
Proof.
  split; [|split].
  - intro Hthrow. unfold extractTextFromApiResponse. now rewrite Hthrow.
  - intros props -> Hprops. unfold unrecognized in Hprops.
    apply andb_prop in Hprops as [Hd Hprobe]. apply negb_true_iff in Hd.
    assert (Hres : extractTextFromApiResponse (VObj props)
                   = JSON_stringify (VObj props)).
    { unfold extractTextFromApiResponse.
      rewrite extract_payload by reflexivity.
      unfold payloadOf. rewrite get_object. cbn [fieldName]. rewrite Hd.
      now rewrite extractFrom_fallback. }
    split; [exact Hres|].
    rewrite Hres. now apply JSON_stringify_string.
  - unfold extractTextFromApiResponse.
    destruct (truthy resp) eqn:Hresp.
    + rewrite extract_payload by assumption.
      destruct (extractFrom (payloadOf resp)) as [v|] eqn:Hv; [|now left].
      apply extractFrom_result; [now apply payloadOf_truthy | assumption].
    + unfold extractBody. rewrite Hresp. now left.
Qed.

Lemma normalizer_total_witness :
  extractTextFromApiResponse (VObj [(lit "output", VArr [VNull])]) = VStr []
  /\ extractTextFromApiResponse (VObj [(lit "id", VNum (lit "7"))])
     = JSON_stringify (VObj [(lit "id", VNum (lit "7"))]).
Proof.
  split.
  - apply (proj1 (normalizer_total (VObj [(lit "output", VArr [VNull])]))).
    reflexivity.
  - apply (proj1 (proj2 (normalizer_total (VObj [(lit "id", VNum (lit "7"))])))
             [(lit "id", VNum (lit "7"))]); reflexivity.
Defined.

(** C8 fails as stated: a payload whose [output_text] is the Number 5
    normalizes to that Number, which is not a string. *)
Lemma normalizer_returns_non_string :
  extractTextFromApiResponse (VObj [(lit "output_text", VNum (lit "5"))])
  = VNum (lit "5")
  /\ isString (extractTextFromApiResponse
                 (VObj [(lit "output_text", VNum (lit "5"))])) = false.
Proof. split; reflexivity. Qed.

(* ================================================================== *)
(** * Further properties of [levenshtein] *)
(* ================================================================== *)
Section LevenshteinMetric.

Lemma toLowerCaseChar_idem c :
  toLowerCaseChar (toLowerCaseChar c) = toLowerCaseChar c.
Proof.
  destruct c as [[] [] [] [] [] [] [] []]; vm_compute; reflexivity.
Qed.

Lemma toLowerCase_idem s : toLowerCase (toLowerCase s) = toLowerCase s.
Proof.
  unfold toLowerCase. rewrite map_map. apply map_ext.
  intro c. apply toLowerCaseChar_idem.
Qed.

Lemma substitutionCost_le x y : substitutionCost x y <= 1.
Proof. unfold substitutionCost. destruct (Ascii.eqb _ _); lia. Qed.

Lemma substitutionCost_zero x y :
  substitutionCost x y = 0 <-> toLowerCaseChar x = toLowerCaseChar y.
Proof.
  unfold substitutionCost.
  destruct (Ascii.eqb_spec (toLowerCaseChar x) (toLowerCaseChar y));
    split; intro; auto; try discriminate; contradiction.
Qed.

Lemma substitutionCost_lower_l x y :
  substitutionCost (toLowerCaseChar x) y = substitutionCost x y.
Proof. unfold substitutionCost. now rewrite toLowerCaseChar_idem. Qed.

Lemma substitutionCost_triangle x y z :
  substitutionCost x z <= substitutionCost x y + substitutionCost y z.
Proof.
  destruct (substitutionCost x y) eqn:Hxy.
  - apply substitutionCost_zero in Hxy.
    unfold substitutionCost. rewrite Hxy. lia.
  - pose proof (substitutionCost_le x z). lia.
Qed.

Lemma dist_upper : forall x y, dist x y <= Nat.max (length x) (length y).
Proof.
  induction x as [|c x IHx]; intro y.
  - rewrite dist_nil_l. lia.
  - destruct y as [|e y]; [rewrite dist_nil_r; lia|].
    rewrite dist_cons. specialize (IHx y).
    pose proof (substitutionCost_le c e).
    unfold min3. cbn [length]. lia.
Qed.

Lemma dist_lower : forall x y,
  length x - length y <= dist x y /\ length y - length x <= dist x y.
Proof.
  induction x as [|c x IHx]; intro y.
  - rewrite dist_nil_l. cbn [length]. lia.
  - induction y as [|e y IHy]; [rewrite dist_nil_r; cbn [length]; lia|].
    rewrite dist_cons.
    pose proof (IHx (e :: y)) as H1. pose proof (IHx y) as H2.
    unfold min3. cbn [length] in *. lia.
Qed.

Lemma dist_zero_iff : forall x y,
  dist x y = 0 <-> toLowerCase x = toLowerCase y.
Proof.
  induction x as [|c x IHx]; intro y.
  - rewrite dist_nil_l. destruct y; cbn; split; intro; congruence.
  - destruct y as [|e y]; [rewrite dist_nil_r; cbn; split; intro; congruence|].
    rewrite dist_cons. cbn [toLowerCase map]. split.
    + intro H.
      assert (Hd : dist x y = 0 /\ substitutionCost c e = 0)
        by (unfold min3 in H; lia).
      destruct Hd as [Hd Hc].
      apply IHx in Hd. apply substitutionCost_zero in Hc.
      unfold toLowerCase in Hd. now rewrite Hd, Hc.
    + intro H. injection H as Hc Hd.
      apply substitutionCost_zero in Hc. apply (IHx y) in Hd.
      unfold min3. lia.
Qed.

Lemma dist_lower_case_l : forall x y, dist (toLowerCase x) y = dist x y.
Proof.
  induction x as [|c x IHx]; intro y.
  - cbn [toLowerCase map]. reflexivity.
  - induction y as [|e y IHy].
    + rewrite !dist_nil_r. unfold toLowerCase. now rewrite length_map.
    + change (toLowerCase (c :: x))
        with (toLowerCaseChar c :: toLowerCase x) in *.
      rewrite !dist_cons, IHy, !IHx, substitutionCost_lower_l. reflexivity.
Qed.

Lemma dist_cons_l c x y : dist (c :: x) y <= dist x y + 1.
Proof.
  destruct y as [|e y].
  - rewrite !dist_nil_r. cbn [length]. lia.
  - rewrite dist_cons. unfold min3. lia.
Qed.

Lemma dist_cons_r e x y : dist x (e :: y) <= dist x y + 1.
Proof.
  rewrite (dist_sym x (e :: y)), (dist_sym x y). apply dist_cons_l.
Qed.

Lemma dist_triangle_bounded : forall n x y z,
  length x + length y + length z <= n ->
  dist x z <= dist x y + dist y z.
Proof.
  induction n as [|n IH]; intros x y z Hn.
  - destruct x, y, z; cbn [length] in Hn; lia.
  - destruct x as [|c x].
    { rewrite !dist_nil_l. pose proof (dist_lower y z). lia. }
    destruct z as [|g z].
    { rewrite !dist_nil_r. pose proof (dist_lower (c :: x) y). lia. }
    destruct y as [|e y].
    { rewrite dist_nil_r, dist_nil_l.
      pose proof (dist_upper (c :: x) (g :: z)). lia. }
    cbn [length] in Hn.
    assert (HA : dist x (g :: z) <= dist x (e :: y) + dist (e :: y) (g :: z))
      by (apply IH; cbn [length]; lia).
    assert (HB : dist (c :: x) z <= dist (c :: x) (e :: y) + dist (e :: y) z)
      by (apply IH; cbn [length]; lia).
    assert (HC : dist (c :: x) (g :: z) <= dist (c :: x) y + dist y (g :: z))
      by (apply IH; cbn [length]; lia).
    assert (HD : dist (c :: x) z <= dist (c :: x) y + dist y z)
      by (apply IH; cbn [length]; lia).
    assert (HE : dist x (g :: z) <= dist x y + dist y (g :: z))
      by (apply IH; cbn [length]; lia).
    assert (HF : dist x z <= dist x y + dist y z)
      by (apply IH; cbn [length]; lia).
    pose proof (substitutionCost_triangle c e g) as Hcost.
    pose proof (dist_cons_l c x (g :: z)) as Hl.
    pose proof (dist_cons_r g (c :: x) z) as Hr.
    rewrite (dist_cons c x e y) in *. rewrite (dist_cons e y g z) in *.
    rewrite (dist_cons c x g z) in *.
    unfold min3 in *. lia.
Qed.

Lemma dist_triangle x y z : dist x z <= dist x y + dist y z.
Proof. eapply dist_triangle_bounded. reflexivity. Qed.

Lemma toLowerCase_rev s : toLowerCase (rev s) = rev (toLowerCase s).
Proof. unfold toLowerCase. apply map_rev. Qed.

End LevenshteinMetric.

Lemma levenshtein_bounds_aux a b :
  levenshtein a b <= Nat.max (length a) (length b)
  /\ length a - length b <= levenshtein a b
  /\ length b - length a <= levenshtein a b.
Proof.
  rewrite levenshtein_dist.
  pose proof (dist_upper (rev a) (rev b)) as Hu.
  pose proof (dist_lower (rev a) (rev b)) as Hl.
  rewrite !length_rev in *. lia.
Qed.

(** X1. The distance is at most the longer length and at least the
    difference of the two lengths. *)
Theorem levenshtein_bounds (a b : str) :
  levenshtein a b <= Nat.max (length a) (length b)
  /\ length a - length b <= levenshtein a b
  /\ length b - length a <= levenshtein a b.
Proof. apply levenshtein_bounds_aux. Qed.

(** X4. The distance satisfies the triangle inequality. *)
Theorem levenshtein_triangle (a b c : str) :
  levenshtein a c <= levenshtein a b + levenshtein b c.
Proof.
  rewrite !levenshtein_dist. apply dist_triangle.
Qed.

(* ================================================================== *)
(** * Further properties of [splitIntoItems] *)
(* ================================================================== *)
Section SegmenterFacts.


Lemma dropWhile_all p : forall s, forallb p s = true -> dropWhile p s = [].
Proof.
  induction s as [|d s IH]; intro H; [reflexivity|].
  cbn [forallb] in H. apply andb_prop in H as [Hd Hs].
  cbn [dropWhile]. rewrite Hd. now apply IH.
Qed.







Lemma trim_blank s : forallb isSpace s = true -> trim s = [].
Proof.
  intro H. unfold trim. now rewrite (dropWhile_all isSpace s H).
Qed.

Lemma in_consField c f fields :
  In f (consField c fields) ->
  (exists g, f = c :: g /\ (In g fields \/ (fields = [] /\ g = [])))
  \/ In f fields.
Proof.
  destruct fields as [|g gs]; cbn [consField In]; intros [<- | H].
  - left. exists []. split; [reflexivity | now right].
  - contradiction.
  - left. exists g. split; [reflexivity | left; now left].
  - right. now right.
Qed.

(** The characters of a field come from the text, and none is a
    separator of the split. *)
Lemma splitSeps_fields : forall text f c,
  In f (splitSeps text) -> In c f -> In c text /\ isListSep c = false.
Proof.
  induction text as [|d text IH]; intros f c Hf Hc.
  - cbn in Hf. destruct Hf as [<- | []]. contradiction.
  - cbn [splitSeps] in Hf. destruct (isListSep d) eqn:Hd.
    + destruct Hf as [<- | Hf]; [contradiction|].
      destruct (IH f c Hf Hc). split; [now right | assumption].
    + apply in_consField in Hf as [(g & -> & Hg) | Hf].
      * destruct Hc as [<- | Hc]; [split; [now left | assumption]|].
        destruct Hg as [Hg | [_ ->]]; [|contradiction].
        destruct (IH g c Hg Hc). split; [now right | assumption].
      * destruct (IH f c Hf Hc). split; [now right | assumption].
Qed.

Lemma splitLines_fields_bounded : forall n text f c,
  length text <= n ->
  In f (splitLines text) -> In c f -> In c text /\ c <> Segmenter.LF.
Proof.
  induction n as [|n IH]; intros text f c Hn Hf Hc.
  - destruct text; [|cbn in Hn; lia].
    cbn in Hf. destruct Hf as [<- | []]. contradiction.
  - destruct text as [|d text].
    { cbn in Hf. destruct Hf as [<- | []]. contradiction. }
    cbn [length] in Hn.
    assert (Hcons : In f (consField d (splitLines text)) ->
                    d <> Segmenter.LF ->
                    In c (d :: text) /\ c <> Segmenter.LF).
    { intros Hf' Hd.
      apply in_consField in Hf' as [(g & -> & Hg) | Hf'].
      - destruct Hc as [<- | Hc]; [split; [now left | assumption]|].
        destruct Hg as [Hg | [_ ->]]; [|contradiction].
        destruct (IH text g c ltac:(lia) Hg Hc). split; [now right | assumption].
      - destruct (IH text f c ltac:(lia) Hf' Hc).
        split; [now right | assumption]. }
    cbn [splitLines] in Hf.
    destruct (Ascii.eqb_spec d Segmenter.LF) as [-> | Hd].
    { destruct Hf as [<- | Hf]; [contradiction|].
      destruct (IH text f c ltac:(lia) Hf Hc). split; [now right | assumption]. }
    destruct (Ascii.eqb d CR); [|now apply Hcons].
    destruct text as [|e text']; [now apply Hcons|].
    destruct (Ascii.eqb e Segmenter.LF); [|now apply Hcons].
    destruct Hf as [<- | Hf]; [contradiction|].
    cbn [length] in Hn.
    destruct (IH text' f c ltac:(lia) Hf Hc).
    split; [right; now right | assumption].
Qed.

Lemma splitLines_fields text f c :
  In f (splitLines text) -> In c f -> In c text /\ c <> Segmenter.LF.
Proof. now apply splitLines_fields_bounded with (n := length text). Qed.

Lemma listSep_LF : isListSep Segmenter.LF = true.
Proof. reflexivity. Qed.


Lemma trimmedNonEmpty_blank fields :
  (forall f, In f fields -> forallb isSpace f = true) ->
  trimmedNonEmpty fields = [].
Proof.
  induction fields as [|f fields IH]; intro H; [reflexivity|].
  unfold trimmedNonEmpty in *. cbn [map filter].
  rewrite (trim_blank f) by (apply H; now left). cbn [nonEmpty].
  apply IH. intros g Hg. apply H. now right.
Qed.

Lemma splitSeps_plain : forall text,
  (forall c, In c text -> isListSep c = false) -> splitSeps text = [text].
Proof.
  induction text as [|d text IH]; intro H; [reflexivity|].
  cbn [splitSeps]. rewrite (H d) by now left.
  rewrite IH by (intros c Hc; apply H; now right). reflexivity.
Qed.

Lemma splitLines_plain : forall text,
  (forall c, In c text -> c <> Segmenter.LF) -> splitLines text = [text].
Proof.
  induction text as [|d text IH]; intro H; [reflexivity|].
  assert (Hrest : splitLines text = [text])
    by (apply IH; intros c Hc; apply H; now right).
  cbn [splitLines].
  destruct (Ascii.eqb_spec d Segmenter.LF) as [Hd | Hd];
    [exfalso; apply (H d); [now left | assumption]|].
  destruct (Ascii.eqb d CR); [|now rewrite Hrest].
  destruct text as [|e text']; [reflexivity|].
  destruct (Ascii.eqb_spec e Segmenter.LF) as [He | He];
    [exfalso; apply (H e); [right; now left | assumption]|].
  now rewrite Hrest.
Qed.

End SegmenterFacts.



(** X6. A text made of white space only has no item. *)
Theorem blank_text_has_no_item (text : str)
    (Hblank : forallb isSpace text = true) :
  splitIntoItems text = [].
Proof.
  assert (Hall : forall c, In c text -> isSpace c = true)
    by (now apply forallb_forall).
  assert (Hseps : trimmedNonEmpty (splitSeps text) = []).
  { apply trimmedNonEmpty_blank. intros f Hf. apply forallb_forall.
    intros c Hc. apply Hall. now destruct (splitSeps_fields _ _ _ Hf Hc). }
  assert (Hlines : trimmedNonEmpty (splitLines text) = []).
  { apply trimmedNonEmpty_blank. intros f Hf. apply forallb_forall.
    intros c Hc. apply Hall. now destruct (splitLines_fields _ _ _ Hf Hc). }
  unfold splitIntoItems. destruct (nonEmpty text); [|reflexivity].
  cbn [negb]. now rewrite Hlines, Hseps.
Qed.

Lemma blank_text_has_no_item_witness :
  splitIntoItems [" "%char; Segmenter.LF; CR; Segmenter.LF; "009"%char] = [].
Proof.
  apply (blank_text_has_no_item
           [" "%char; Segmenter.LF; CR; Segmenter.LF; "009"%char]).
  reflexivity.
Defined.

(** X7. A text without comma, semicolon or line feed is a single item,
    its trimmed form, or no item when that is empty. *)
Theorem text_without_separator_is_one_item (text : str)
    (Hplain : forall c, In c text -> isListSep c = false) :
  splitIntoItems text = if nonEmpty (trim text) then [trim text] else [].
Proof.
  unfold splitIntoItems. destruct text as [|d text]; [reflexivity|].
  cbn [nonEmpty negb].
  rewrite splitLines_plain, splitSeps_plain; [|assumption|].
  - unfold trimmedNonEmpty. cbn [map filter].
    destruct (nonEmpty (trim (d :: text))); reflexivity.
  - intros c Hc ->. specialize (Hplain _ Hc).
    rewrite listSep_LF in Hplain. discriminate.
Qed.

Lemma text_without_separator_is_one_item_witness :
  splitIntoItems (lit "  Acme is great  ") = [lit "Acme is great"].
Proof.
  refine (text_without_separator_is_one_item (lit "  Acme is great  ") _).
  intros c Hc. vm_compute in Hc.
  repeat (destruct Hc as [<- | Hc]; [reflexivity|]). contradiction.
Defined.

(* ================================================================== *)
(** * Further properties of [findBrandPositions] *)
(* ================================================================== *)
Section ScanFacts.

Variable brand : str.

Lemma fuzzyLoop_spec : forall tokens brandClean i ps,
  fuzzyLoop tokens brandClean i ps
  = if existsb (fun t => nonEmpty t && fuzzyAccepts t brandClean) tokens
    then push ps (lineIndex i) else ps.
Proof.
  induction tokens as [|t tokens IH]; intros brandClean i ps; [reflexivity|].
  cbn [fuzzyLoop existsb]. destruct (nonEmpty t); cbn [negb andb orb].
  - destruct (fuzzyAccepts t brandClean); [reflexivity | apply IH].
  - apply IH.
Qed.

(** The loop body, in closed form. *)
Lemma loopBody_spec i item st :
  loopBody brand i item st
  = Scan (Matcher.positions st
          ++ (if itemMatches brand item
              then [entryFor brand i item (currentRank st)] else []))
         (rankAfter item (currentRank st)).
Proof.
  unfold loopBody, itemMatches, entryFor, exactOrSubstring, fuzzyMatches.
  fold (rankAfter item (currentRank st)).
  destruct (regexTest brand item); cbn [orb andb].
  { unfold pushRanked, push.
    destruct (rankActive (rankAfter item (currentRank st))); reflexivity. }
  destruct (includes (toLowerCase item) (toLowerCase brand)); cbn [orb andb].
  { unfold pushRanked, push.
    destruct (rankActive (rankAfter item (currentRank st))); reflexivity. }
  rewrite fuzzyLoop_spec.
  destruct (existsb _ _); [reflexivity | now rewrite app_nil_r].
Qed.

Lemma loopFrom_app : forall items1 items2 i st,
  loopFrom brand i (items1 ++ items2) st
  = loopFrom brand (i + length items1) items2 (loopFrom brand i items1 st).
Proof.
  induction items1 as [|item items1 IH]; intros items2 i st.
  - cbn [app loopFrom length]. now rewrite Nat.add_0_r.
  - cbn [app loopFrom length]. rewrite IH. f_equal. lia.
Qed.

Lemma loopFrom_extends : forall items i st,
  exists more,
    Matcher.positions (loopFrom brand i items st)
    = Matcher.positions st ++ more.
Proof.
  induction items as [|item items IH]; intros i st; cbn [loopFrom].
  - exists []. now rewrite app_nil_r.
  - destruct (IH (S i) (loopBody brand i item st)) as [more ->].
    rewrite loopBody_spec. cbn [Matcher.positions].
    rewrite <- app_assoc. eexists. reflexivity.
Qed.

Lemma loopFrom_count : forall items i st,
  length (Matcher.positions (loopFrom brand i items st))
  = length (Matcher.positions st) + length (filter (itemMatches brand) items).
Proof.
  induction items as [|item items IH]; intros i st; cbn [loopFrom filter].
  - cbn [length]. lia.
  - rewrite IH, loopBody_spec. cbn [Matcher.positions].
    rewrite length_app.
    destruct (itemMatches brand item); cbn [length]; lia.
Qed.


End ScanFacts.

Section EntryFacts.

Variable brand : str.
Variable all : list str.

Lemma rankAfter_fromText item r :
  In item all -> rankFromText all r -> rankFromText all (rankAfter item r).
Proof.
  intros Hin Hr. unfold rankAfter.
  destruct (numMatch item) as [digits|] eqn:Hnum; [|exact Hr].
  right. now exists item, digits.
Qed.

Lemma entryFor_fromText i item r :
  In item all -> i < length all -> rankFromText all r ->
  entryFromText all (entryFor brand i item r).
Proof.
  intros Hin Hi Hr. unfold entryFor.
  destruct (exactOrSubstring brand item && rankActive (rankAfter item r))
    eqn:Hcond.
  - apply andb_prop in Hcond as [_ Hactive].
    destruct (rankAfter_fromText item r Hin Hr) as [H0 | H].
    + rewrite H0 in Hactive. discriminate.
    + right. split; assumption.
  - left. now exists i.
Qed.

Lemma loopFrom_fromText : forall items i st,
  (forall item, In item items -> In item all) ->
  i + length items <= length all ->
  rankFromText all (currentRank st) ->
  Forall (entryFromText all) (Matcher.positions st) ->
  Forall (entryFromText all) (Matcher.positions (loopFrom brand i items st)).
Proof.
  induction items as [|item items IH]; intros i st Hin Hlen Hr Hps;
    cbn [loopFrom]; [exact Hps|].
  cbn [length] in Hlen.
  apply IH.
  - intros x Hx. apply Hin. now right.
  - lia.
  - rewrite loopBody_spec. cbn [currentRank].
    apply rankAfter_fromText; [apply Hin; now left | exact Hr].
  - rewrite loopBody_spec. cbn [Matcher.positions].
    apply Forall_app. split; [exact Hps|].
    destruct (itemMatches brand item); [|constructor].
    constructor; [|constructor].
    apply entryFor_fromText; [apply Hin; now left | lia | exact Hr].
Qed.

End EntryFacts.

Section CaseFacts.

Lemma canonicalize_lower c : canonicalize (toLowerCaseChar c) = canonicalize c.
Proof.
  destruct c as [[] [] [] [] [] [] [] []]; vm_compute; reflexivity.
Qed.

Lemma lower_canonicalize c : toLowerCaseChar (canonicalize c) = toLowerCaseChar c.
Proof.
  destruct c as [[] [] [] [] [] [] [] []]; vm_compute; reflexivity.
Qed.

Lemma isWordChar_lower c : isWordChar (toLowerCaseChar c) = isWordChar c.
Proof.
  destruct c as [[] [] [] [] [] [] [] []]; vm_compute; reflexivity.
Qed.

Lemma isSpace_lower c : isSpace (toLowerCaseChar c) = isSpace c.
Proof.
  destruct c as [[] [] [] [] [] [] [] []]; vm_compute; reflexivity.
Qed.

Lemma isDigit_lower c : isDigit (toLowerCaseChar c) = isDigit c.
Proof.
  destruct c as [[] [] [] [] [] [] [] []]; vm_compute; reflexivity.
Qed.

Lemma isAlnum_lower c : isAlnum (toLowerCaseChar c) = isAlnum c.
Proof.
  destruct c as [[] [] [] [] [] [] [] []]; vm_compute; reflexivity.
Qed.

Lemma digit_lower c : isDigit c = true -> toLowerCaseChar c = c.
Proof.
  destruct c as [[] [] [] [] [] [] [] []]; vm_compute; intro; congruence.
Qed.

Lemma marker_end_lower c :
  (Ascii.eqb (toLowerCaseChar c) "."%char
   || Ascii.eqb (toLowerCaseChar c) ")"%char)
  = (Ascii.eqb c "."%char || Ascii.eqb c ")"%char).
Proof.
  destruct c as [[] [] [] [] [] [] [] []]; vm_compute; reflexivity.
Qed.

(** On the modelled code units, canonical forms agree exactly when
    lower-case forms do. *)
Lemma canonical_eq_lower b c :
  Ascii.eqb (canonicalize b) (canonicalize c)
  = Ascii.eqb (toLowerCaseChar b) (toLowerCaseChar c).
Proof.
  destruct (Ascii.eqb_spec (canonicalize b) (canonicalize c)) as [H | H];
    destruct (Ascii.eqb_spec (toLowerCaseChar b) (toLowerCaseChar c))
      as [H' | H']; try reflexivity; exfalso.
  - apply H'. now rewrite <- (lower_canonicalize b), H, lower_canonicalize.
  - apply H. now rewrite <- (canonicalize_lower b), H', canonicalize_lower.
Qed.

Lemma brandThenBoundary_prefix : forall brand prevWord rest,
  brandThenBoundary prevWord brand rest = true ->
  startsWith (toLowerCase brand) (toLowerCase rest) = true.
Proof.
  induction brand as [|b brand IH]; intros prevWord rest H; [reflexivity|].
  destruct rest as [|c rest]; [discriminate|].
  cbn [brandThenBoundary] in H. apply andb_prop in H as [Hc Hrest].
  cbn [toLowerCase map startsWith].
  rewrite canonical_eq_lower in Hc. rewrite Hc. cbn [andb].
  exact (IH _ _ Hrest).
Qed.

Lemma regexTestFrom_includes brand : forall item prevWord,
  regexTestFrom prevWord brand item = true ->
  includes (toLowerCase item) (toLowerCase brand) = true.
Proof.
  induction item as [|c item IH]; intros prevWord H.
  - cbn [regexTestFrom] in H. rewrite orb_false_r in H.
    apply andb_prop in H as [_ H].
    apply brandThenBoundary_prefix in H.
    cbn [toLowerCase map] in H. cbn [toLowerCase map includes].
    now rewrite H.
  - cbn [regexTestFrom] in H. apply orb_prop in H as [H | H].
    + apply andb_prop in H as [_ H].
      apply brandThenBoundary_prefix in H.
      change (toLowerCase (c :: item))
        with (toLowerCaseChar c :: toLowerCase item) in *.
      cbn [includes]. now rewrite H.
    + change (toLowerCase (c :: item))
        with (toLowerCaseChar c :: toLowerCase item).
      cbn [includes]. rewrite (IH _ H). apply orb_true_r.
Qed.

Lemma brandThenBoundary_brand_case : forall b1 b2 prevWord rest,
  toLowerCase b1 = toLowerCase b2 ->
  brandThenBoundary prevWord b1 rest = brandThenBoundary prevWord b2 rest.
Proof.
  induction b1 as [|x b1 IH]; intros [|y b2] prevWord rest H;
    try discriminate; [reflexivity|].
  injection H as Hx Hrest.
  cbn [brandThenBoundary]. destruct rest as [|c rest]; [reflexivity|].
  rewrite !canonical_eq_lower, Hx. f_equal. now apply IH.
Qed.

Lemma regexTestFrom_brand_case b1 b2 :
  toLowerCase b1 = toLowerCase b2 ->
  forall item prevWord,
    regexTestFrom prevWord b1 item = regexTestFrom prevWord b2 item.
Proof.
  intro H. induction item as [|c item IH]; intro prevWord;
    cbn [regexTestFrom];
    rewrite (brandThenBoundary_brand_case b1 b2 _ _ H); [reflexivity|].
  now rewrite IH.
Qed.

Lemma wordBoundary_lower prevWord rest :
  wordBoundary prevWord (toLowerCase rest) = wordBoundary prevWord rest.
Proof.
  destruct rest as [|c rest]; [reflexivity|].
  unfold wordBoundary, toLowerCase. cbn [map]. now rewrite isWordChar_lower.
Qed.

Lemma brandThenBoundary_item_case : forall brand prevWord rest,
  brandThenBoundary prevWord brand (toLowerCase rest)
  = brandThenBoundary prevWord brand rest.
Proof.
  induction brand as [|b brand IH]; intros prevWord rest.
  - apply wordBoundary_lower.
  - destruct rest as [|c rest]; [reflexivity|].
    change (toLowerCase (c :: rest))
      with (toLowerCaseChar c :: toLowerCase rest).
    cbn [brandThenBoundary].
    now rewrite canonicalize_lower, isWordChar_lower, IH.
Qed.

Lemma regexTestFrom_item_case brand : forall item prevWord,
  regexTestFrom prevWord brand (toLowerCase item)
  = regexTestFrom prevWord brand item.
Proof.
  induction item as [|c item IH]; intro prevWord.
  - reflexivity.
  - change (toLowerCase (c :: item))
      with (toLowerCaseChar c :: toLowerCase item).
    cbn [regexTestFrom].
    change (toLowerCaseChar c :: toLowerCase item)
      with (toLowerCase (c :: item)).
    now rewrite wordBoundary_lower, brandThenBoundary_item_case,
      isWordChar_lower, IH.
Qed.

Lemma dropWhile_lower p :
  (forall c, p (toLowerCaseChar c) = p c) ->
  forall s, dropWhile p (toLowerCase s) = toLowerCase (dropWhile p s).
Proof.
  intros Hp. induction s as [|c s IH]; [reflexivity|].
  change (toLowerCase (c :: s)) with (toLowerCaseChar c :: toLowerCase s).
  cbn [dropWhile]. rewrite Hp. destruct (p c); [exact IH | reflexivity].
Qed.

Lemma takeWhile_digits_lower : forall s,
  takeWhile isDigit (toLowerCase s) = takeWhile isDigit s.
Proof.
  induction s as [|c s IH]; [reflexivity|].
  change (toLowerCase (c :: s)) with (toLowerCaseChar c :: toLowerCase s).
  cbn [takeWhile]. rewrite isDigit_lower.
  destruct (isDigit c) eqn:Hc; [|reflexivity].
  now rewrite IH, digit_lower.
Qed.

Lemma numMatch_lower item : numMatch (toLowerCase item) = numMatch item.
Proof.
  unfold numMatch. cbv zeta.
  rewrite (dropWhile_lower isSpace isSpace_lower).
  rewrite takeWhile_digits_lower, (dropWhile_lower isDigit isDigit_lower).
  destruct (dropWhile isDigit (dropWhile isSpace item)) as [|c rest];
    [reflexivity|].
  change (toLowerCase (c :: rest)) with (toLowerCaseChar c :: toLowerCase rest).
  cbv iota. now rewrite marker_end_lower.
Qed.

Lemma consField_lower c fields :
  map toLowerCase (consField c fields)
  = consField (toLowerCaseChar c) (map toLowerCase fields).
Proof. destruct fields; reflexivity. Qed.

Lemma splitSpacesFrom_lower : forall item inRun,
  splitSpacesFrom inRun (toLowerCase item)
  = map toLowerCase (splitSpacesFrom inRun item).
Proof.
  induction item as [|c item IH]; intro inRun; [reflexivity|].
  change (toLowerCase (c :: item)) with (toLowerCaseChar c :: toLowerCase item).
  cbn [splitSpacesFrom]. rewrite isSpace_lower.
  destruct (isSpace c).
  - destruct inRun; [apply IH|]. cbn [map]. now rewrite IH.
  - now rewrite consField_lower, IH.
Qed.

Lemma stripNonAlnum_lower : forall s,
  stripNonAlnum (toLowerCase s) = toLowerCase (stripNonAlnum s).
Proof.
  unfold stripNonAlnum. induction s as [|c s IH]; [reflexivity|].
  change (toLowerCase (c :: s)) with (toLowerCaseChar c :: toLowerCase s).
  cbn [filter]. rewrite isAlnum_lower.
  destruct (isAlnum c); [|exact IH].
  change (toLowerCase (c :: filter isAlnum s))
    with (toLowerCaseChar c :: toLowerCase (filter isAlnum s)).
  now rewrite IH.
Qed.

Lemma nonEmpty_lower s : nonEmpty (toLowerCase s) = nonEmpty s.
Proof. destruct s; reflexivity. Qed.

Lemma fuzzyAccepts_lower t brandClean :
  fuzzyAccepts (toLowerCase t) brandClean = fuzzyAccepts t brandClean.
Proof. unfold fuzzyAccepts. now rewrite toLowerCase_idem. Qed.

Lemma fuzzyLoop_lower : forall tokens brandClean i ps,
  fuzzyLoop (map toLowerCase tokens) brandClean i ps
  = fuzzyLoop tokens brandClean i ps.
Proof.
  induction tokens as [|t tokens IH]; intros brandClean i ps; [reflexivity|].
  cbn [map fuzzyLoop]. rewrite nonEmpty_lower, fuzzyAccepts_lower, !IH.
  reflexivity.
Qed.

Lemma loopBody_item_case brand i item st :
  loopBody brand i (toLowerCase item) st = loopBody brand i item st.
Proof.
  unfold loopBody, regexTest, splitSpaces.
  rewrite numMatch_lower, regexTestFrom_item_case, toLowerCase_idem.
  rewrite splitSpacesFrom_lower, map_map.
  rewrite (map_ext _ _ (fun t => stripNonAlnum_lower t)).
  rewrite <- (map_map stripNonAlnum toLowerCase), fuzzyLoop_lower.
  reflexivity.
Qed.

Lemma loopBody_brand_case b1 b2 i item st :
  toLowerCase b1 = toLowerCase b2 ->
  loopBody b1 i item st = loopBody b2 i item st.
Proof.
  intro H. unfold loopBody, regexTest.
  now rewrite (regexTestFrom_brand_case b1 b2 H), H.
Qed.

End CaseFacts.

Lemma positions_count_aux items brand :
  length (findBrandPositions items brand)
  = length (filter (itemMatches brand) items).
Proof.
  unfold findBrandPositions. now rewrite loopFrom_count.
Qed.

(** X8. [findBrandPositions] records one entry for each item that passes
    the exact, the substring or the fuzzy test, and none for the others. *)
Theorem positions_count (items : list str) (brand : str) :
  length (findBrandPositions items brand)
  = length (filter (itemMatches brand) items).
Proof. apply positions_count_aux. Qed.

(** X9. [mentioned] is [Yes] exactly when some item passes one of the
    three tests. *)
Theorem mentioned_iff_some_item_matches (items : list str) (brand : str) :
  mentioned (matchResult items brand) = VStr (lit "Yes")
  <-> existsb (itemMatches brand) items = true.
Proof.
  unfold matchResult. cbn [mentioned].
  rewrite positions_count_aux.
  destruct (filter (itemMatches brand) items) as [|x l] eqn:Hf.
  - cbn. split; [discriminate|]. intro H.
    apply existsb_exists in H as (x & Hin & Hx).
    assert (Hx' : In x (filter (itemMatches brand) items))
      by (apply filter_In; now split).
    rewrite Hf in Hx'. contradiction.
  - cbn. split; [intros _ | reflexivity].
    assert (Hx : In x (filter (itemMatches brand) items))
      by (rewrite Hf; now left).
    apply filter_In in Hx as [Hin Hx].
    apply existsb_exists. now exists x.
Qed.

Lemma loopFrom_brand_case b1 b2 :
  toLowerCase b1 = toLowerCase b2 ->
  forall items i st, loopFrom b1 i items st = loopFrom b2 i items st.
Proof.
  intro H. induction items as [|item items IH]; intros i st; [reflexivity|].
  cbn [loopFrom]. now rewrite (loopBody_brand_case b1 b2 i item st H), IH.
Qed.

Lemma loopFrom_item_case brand : forall items i st,
  loopFrom brand i (map toLowerCase items) st = loopFrom brand i items st.
Proof.
  induction items as [|item items IH]; intros i st; [reflexivity|].
  cbn [map loopFrom]. now rewrite loopBody_item_case, IH.
Qed.

(** X13. Every entry of the positions is the 1-based index of an item or
    an active rank parsed from the list marker of an item; in particular
    no entry is zero or negative. *)
Theorem entries_come_from_text (items : list str) (brand : str) :
  Forall (entryFromText items) (findBrandPositions items brand)
  /\ Forall positive (findBrandPositions items brand).
Proof.
  assert (H : Forall (entryFromText items) (findBrandPositions items brand)).
  { unfold findBrandPositions.
    apply loopFrom_fromText;
      [auto | cbn; lia | now left | constructor]. }
  split; [exact H|].
  eapply Forall_impl; [|exact H].
  intros p [(i & _ & ->) | [Hactive _]].
  - cbn. lia.
  - destruct p as [z|]; [|exact I].
    cbn in Hactive. apply andb_prop in Hactive as [_ Hpos].
    apply Z.ltb_lt in Hpos. cbn. lia.
Qed.

(** X14. The positions of a list of items are a prefix of the positions
    of any longer list that starts with it. *)
Theorem positions_prefix_stable (items1 items2 : list str) (brand : str) :
  exists more,
    findBrandPositions (items1 ++ items2) brand
    = findBrandPositions items1 brand ++ more.
Proof.
  unfold findBrandPositions. rewrite loopFrom_app.
  apply loopFrom_extends.
Qed.



Lemma length_toLowerCase s : length (toLowerCase s) = length s.
Proof. apply length_map. Qed.

Lemma fuzzyAccepts_short t brandClean :
  length t <= 2 -> length brandClean <= 2 -> fuzzyAccepts t brandClean = true.
Proof.
  intros Ht Hb. unfold fuzzyAccepts. apply Nat.leb_le.
  pose proof (levenshtein_bounds_aux (toLowerCase t) (toLowerCase brandClean))
    as [Hu _].
  rewrite !length_toLowerCase in Hu. lia.
Qed.

Lemma short_item_matches brand item :
  length (stripNonAlnum (toLowerCase brand)) <= 2 ->
  existsb shortToken (map stripNonAlnum (splitSpaces item)) = true ->
  itemMatches brand item = true.
Proof.
  intros Hbrand Htoken.
  unfold itemMatches, fuzzyMatches. apply orb_true_iff. right.
  apply existsb_exists in Htoken as (t & Hin & Ht).
  apply existsb_exists. exists t. split; [exact Hin|].
  unfold shortToken in Ht. apply andb_prop in Ht as [H1 H2].
  apply Nat.leb_le in H1, H2.
  rewrite fuzzyAccepts_short by assumption.
  destruct t; [cbn in H1; lia | reflexivity].
Qed.

(** X16. When the cleaned brand has at most two characters, every item
    with a token whose cleaned form has one or two characters is
    recorded. *)
Theorem short_brand_matches_short_tokens (brand item : str) (i : nat)
    (st : scan)
    (Hbrand : length (stripNonAlnum (toLowerCase brand)) <= 2)
    (Htoken : existsb shortToken (map stripNonAlnum (splitSpaces item))
              = true) :
  exists p,
    Matcher.positions (loopBody brand i item st)
    = Matcher.positions st ++ [p].
Proof.
  rewrite loopBody_spec. cbn [Matcher.positions].
  rewrite (short_item_matches brand item Hbrand Htoken).
  eexists. reflexivity.
Qed.

Lemma short_brand_matches_short_tokens_witness :
  exists p,
    Matcher.positions (loopBody (lit "HP") 4 (lit "It is raining")
                         (Scan [] (Finite 0)))
    = [] ++ [p].
Proof.
  apply (short_brand_matches_short_tokens (lit "HP") (lit "It is raining") 4
           (Scan [] (Finite 0))).
  - vm_compute. lia.
  - reflexivity.
Defined.

(** X17. A token whose cleaned length differs from the cleaned brand's by
    more than the bound is never accepted by the fuzzy step. *)
Theorem fuzzy_rejects_length_gap (t brandClean : str)
    (Hgap : Nat.max 2 (length brandClean / 4) + length brandClean < length t
            \/ Nat.max 2 (length brandClean / 4) + length t
               < length brandClean) :
  fuzzyAccepts t brandClean = false.
Proof.
  unfold fuzzyAccepts, threshold. apply Nat.leb_gt.
  pose proof (levenshtein_bounds_aux (toLowerCase t) (toLowerCase brandClean))
    as (_ & Hl1 & Hl2).
  rewrite !length_toLowerCase in Hl1, Hl2. lia.
Qed.

Lemma fuzzy_rejects_length_gap_witness :
  fuzzyAccepts (lit "Acmeville") (lit "acme") = false.
Proof.
  apply (fuzzy_rejects_length_gap (lit "Acmeville") (lit "acme")).
  left. vm_compute. lia.
Defined.

Lemma includes_empty s : includes s [] = true.
Proof. destruct s; reflexivity. Qed.

(** X18. With the empty brand the substring test succeeds on every item,
    so every item is recorded. *)
Theorem empty_brand_records_every_item (items : list str) :
  length (findBrandPositions items []) = length items.
Proof.
  rewrite positions_count_aux. f_equal.
  induction items as [|item items IH]; [reflexivity|].
  cbn [filter]. unfold itemMatches at 1, exactOrSubstring.
  cbn [toLowerCase map]. rewrite includes_empty, orb_true_r. cbn [orb].
  now rewrite IH.
Qed.

(* ================================================================== *)
(** * Further properties of the text selection *)
(* ================================================================== *)
Section SelectionFacts.

Lemma canned_items : splitIntoItems cannedFallback = [cannedFallback].
Proof. vm_compute. reflexivity. Qed.

Lemma canned_has_short_token :
  existsb shortToken (map stripNonAlnum (splitSpaces cannedFallback)) = true.
Proof. vm_compute. reflexivity. Qed.

Lemma canned_has_no_marker : numMatch cannedFallback = None.
Proof. vm_compute. reflexivity. Qed.

Lemma extract_unfold resp :
  truthy resp = true ->
  extractTextFromApiResponse resp
  = match extractFrom (payloadOf resp) with
    | Return v => v
    | Throw => VStr []
    end.
Proof.
  intro H. unfold extractTextFromApiResponse. now rewrite extract_payload.
Qed.

Lemma payloadOf_plain props :
  truthy (lookup (lit "data") props) = false ->
  payloadOf (VObj props) = VObj props.
Proof.
  intro H. unfold payloadOf. rewrite get_object. cbn [fieldName].
  now rewrite H.
Qed.

Lemma textOrSelf_parts : forall parts texts,
  map outputPartText parts = map Some texts ->
  mapM textOrSelf parts = Return (map VStr texts).
Proof.
  induction parts as [|p parts IH]; intros [|t texts] H; try discriminate;
    [reflexivity|].
  cbn [map] in H. injection H as Hp Hrest.
  cbn [mapM]. rewrite (IH texts Hrest). unfold textOrSelf.
  destruct p as [| | | |s| |props]; try discriminate.
  - cbn in Hp. injection Hp as ->. reflexivity.
  - cbn [outputPartText] in Hp. rewrite get_object. cbn [fieldName bind].
    destruct (lookup (lit "text") props) as [| | | |[|c s]| |];
      try discriminate.
    injection Hp as <-. reflexivity.
Qed.

End SelectionFacts.

(** X19. Without a provider response, or with one whose data is falsy,
    the controller matches against its canned text; a brand whose cleaned
    form has at most two characters is then reported as mentioned at
    position 1. *)
Theorem no_response_short_brand (apiResp : value) (brand : str)
    (Hnone : truthy apiResp = false
             \/ exists d, get apiResp f_data = Return d /\ truthy d = false)
    (Hbrand : length (stripNonAlnum (toLowerCase brand)) <= 2) :
  responseText apiResp = Return (VStr cannedFallback)
  /\ mentioned (check cannedFallback brand) = VStr (lit "Yes")
  /\ Controller.positions (check cannedFallback brand) = [Finite 1]
  /\ position (check cannedFallback brand) = Some (Finite 1).
Proof.
  assert (Hpos : findBrandPositions [cannedFallback] brand = [Finite 1]).
  { unfold findBrandPositions. cbn [loopFrom]. rewrite loopBody_spec.
    rewrite (short_item_matches brand cannedFallback Hbrand
               canned_has_short_token).
    unfold entryFor, rankAfter. rewrite canned_has_no_marker.
    cbn [currentRank rankActive Z.eqb negb andb].
    rewrite andb_false_r. reflexivity. }
  split.
  - unfold responseText. destruct Hnone as [H | (d & Hd & H)].
    + rewrite H. reflexivity.
    + rewrite Hd. destruct (truthy apiResp); cbn [bind andb];
        rewrite ?H; reflexivity.
  - unfold check, matchResult. rewrite canned_items, Hpos. repeat split.
Qed.

Lemma no_response_short_brand_witness :
  Controller.positions (check cannedFallback (lit "H&M")) = [Finite 1].
Proof.
  refine (proj1 (proj2 (proj2 (no_response_short_brand VNull (lit "H&M")
                                 _ _)))).
  - left. reflexivity.
  - vm_compute. lia.
Defined.

(** X20. A payload without [output_text] and [output] whose [choices]
    array starts with an object normalizes to that choice's truthy [text];
    else to the truthy [content] of its [message] object; and to the
    stringified payload when the message, or its content, is falsy. *)
Theorem choices_probe (props ch : list (str * value)) (rest : list value)
    (Hdata : truthy (lookup (lit "data") props) = false)
    (Htext : truthy (lookup (lit "output_text") props) = false)
    (Hout : truthy (lookup (lit "output") props) = false)
    (Hchoices : lookup (lit "choices") props = VArr (VObj ch :: rest)) :
  let text := lookup (lit "text") ch in
  let message := lookup (lit "message") ch in
  (truthy text = true ->
   extractTextFromApiResponse (VObj props) = text)
  /\ (forall m,
        truthy text = false -> message = VObj m ->
        truthy (lookup (lit "content") m) = true ->
        extractTextFromApiResponse (VObj props) = lookup (lit "content") m)
  /\ (truthy text = false ->
      truthy message = false
      \/ (exists m, message = VObj m
                    /\ truthy (lookup (lit "content") m) = false) ->
      extractTextFromApiResponse (VObj props) = JSON_stringify (VObj props)).
Proof.
  intros text message.
  assert (Hstart :
    extractFrom (VObj props)
    = (if truthy text then Return text
       else
         content <- (if truthy message then get message f_content
                     else Return VUndefined) ;;
         if truthy message && truthy content then Return content
         else Return (JSON_stringify (VObj props)))).
  { unfold extractFrom, probeOutput, probeChoices. cbn [isString].
    rewrite !get_object. cbn [fieldName bind]. rewrite Htext. cbn [bind].
    rewrite Hout. cbn [andb bind]. rewrite Hchoices.
    change (truthy (VArr (VObj ch :: rest))) with true.
    cbn [get bind andb hd]. rewrite truthy_length. cbn [length Nat.eqb negb].
    rewrite ?get_object. cbn [fieldName bind]. fold text message.
    destruct (truthy text); [reflexivity|].
    destruct (truthy message); cbn [andb bind]; [|reflexivity].
    destruct (get message f_content) as [content|]; [|reflexivity].
    cbn [bind]. destruct (truthy content); reflexivity. }
  rewrite extract_unfold by reflexivity.
  rewrite (payloadOf_plain props Hdata), Hstart.
  repeat split.
  - intros ->. reflexivity.
  - intros m -> -> Hc. cbn [truthy andb]. rewrite get_object.
    cbn [fieldName bind]. now rewrite Hc.
  - intros -> [-> | (m & -> & Hc)]; [reflexivity|].
    cbn [truthy andb]. rewrite get_object. cbn [fieldName bind].
    now rewrite Hc.
Qed.

Lemma choices_probe_witness :
  extractTextFromApiResponse
    (VObj [(lit "choices",
            VArr [VObj [(lit "message",
                         VObj [(lit "content", VStr (lit "Acme"))])]])])
  = VStr (lit "Acme").
Proof.
  refine (proj1 (proj2 (choices_probe
            [(lit "choices",
              VArr [VObj [(lit "message",
                           VObj [(lit "content", VStr (lit "Acme"))])]])]
            [(lit "message", VObj [(lit "content", VStr (lit "Acme"))])]
            [] _ _ _ _))
            [(lit "content", VStr (lit "Acme"))] _ _ _); reflexivity.
Defined.

(** X21. A payload without [output_text] whose [output] array is not
    empty normalizes to its first element when that is a string; to the
    element's [content] when that is a non-empty string; and, when the
    content is an array of strings and of objects with a non-empty string
    [text], to those texts joined by line feeds. *)
Theorem output_probe (props : list (str * value)) (o : value)
    (rest : list value)
    (Hdata : truthy (lookup (lit "data") props) = false)
    (Htext : truthy (lookup (lit "output_text") props) = false)
    (Hout : lookup (lit "output") props = VArr (o :: rest)) :
  (forall s, o = VStr s -> extractTextFromApiResponse (VObj props) = VStr s)
  /\ (forall op c s,
        o = VObj op -> lookup (lit "content") op = VStr (c :: s) ->
        extractTextFromApiResponse (VObj props) = VStr (c :: s))
  /\ (forall op parts texts,
        o = VObj op -> lookup (lit "content") op = VArr parts ->
        map outputPartText parts = map Some texts ->
        extractTextFromApiResponse (VObj props)
        = VStr (join Normalizer.LF texts)).
Proof.
  assert (Hstart :
    extractFrom (VObj props)
    = (fromOutput <-
         (if isString o then Return (Some o)
          else
            content <- get o f_content ;;
            if truthy content then
              if isString content then Return (Some content)
              else
                match content with
                | VArr parts =>
                    texts <- mapM textOrSelf parts ;;
                    joined <- joinValues Normalizer.LF texts ;;
                    Return (Some (VStr joined))
                | _ => Return None
                end
            else Return None) ;;
       match fromOutput with
       | Some v => Return v
       | None =>
           fromChoices <- probeChoices (VObj props) ;;
           match fromChoices with
           | Some v => Return v
           | None => Return (JSON_stringify (VObj props))
           end
       end)).
  { unfold extractFrom, probeOutput. cbn [isString].
    rewrite !get_object. cbn [fieldName bind]. rewrite Htext. cbn [bind].
    rewrite Hout. change (truthy (VArr (o :: rest))) with true.
    cbn [isArray andb get bind hd]. rewrite truthy_length.
    cbn [length Nat.eqb negb]. reflexivity. }
  rewrite extract_unfold by reflexivity.
  rewrite (payloadOf_plain props Hdata), Hstart.
  repeat split.
  - intros s ->. reflexivity.
  - intros op c s -> Hc. cbn [isString]. rewrite get_object.
    cbn [fieldName bind]. rewrite Hc. reflexivity.
  - intros op parts texts -> Hc Hparts. cbn [isString]. rewrite get_object.
    cbn [fieldName bind]. rewrite Hc. cbn [truthy isString].
    rewrite (textOrSelf_parts parts texts Hparts). cbn [bind].
    rewrite joinValues_strings. reflexivity.
Qed.

Lemma output_probe_witness :
  extractTextFromApiResponse
    (VObj [(lit "output",
            VArr [VObj [(lit "content",
                         VArr [VObj [(lit "text", VStr (lit "Acme"))];
                               VStr (lit "Globex")])]])])
  = VStr (lit "Acme" ++ Normalizer.LF ++ lit "Globex").
Proof.
  refine (proj2 (proj2 (output_probe
            [(lit "output",
              VArr [VObj [(lit "content",
                           VArr [VObj [(lit "text", VStr (lit "Acme"))];
                                 VStr (lit "Globex")])]])]
            (VObj [(lit "content",
                    VArr [VObj [(lit "text", VStr (lit "Acme"))];
                          VStr (lit "Globex")])])
            [] _ _ _))
            [(lit "content",
              VArr [VObj [(lit "text", VStr (lit "Acme"))];
                    VStr (lit "Globex")])]
            [VObj [(lit "text", VStr (lit "Acme"))]; VStr (lit "Globex")]
            [lit "Acme"; lit "Globex"] _ _ _); reflexivity.
Defined.

(** X22. Wrapping a truthy payload that has no truthy [data] of its own
    into the [data] of a response does not change what it normalizes
    to. *)
Theorem wrapper_transparent (ap : list (str * value)) (d : value)
    (Hd : lookup (lit "data") ap = d)
    (Htruthy : truthy d = true)
    (Hplain : payloadOf d = d) :
  extractTextFromApiResponse (VObj ap) = extractTextFromApiResponse d.
Proof.
  rewrite (extract_unfold (VObj ap)) by reflexivity.
  rewrite (extract_unfold d) by assumption.
  unfold payloadOf at 1. rewrite get_object. cbn [fieldName].
  now rewrite Hd, Htruthy, Hplain.
Qed.

Lemma wrapper_transparent_witness :
  extractTextFromApiResponse
    (VObj [(lit "status", VNum (lit "200"));
           (lit "data", VObj [(lit "output_text", VStr (lit "Acme"))])])
  = extractTextFromApiResponse (VObj [(lit "output_text", VStr (lit "Acme"))]).
Proof.
  apply wrapper_transparent; reflexivity.
Defined.

(** X23. The text selection of the controller can throw only inside the
    candidate branch: when it throws, the data of the response has a
    truthy [candidates] with a truthy [length]. *)
Theorem selection_throws_only_on_candidates (apiResp : value)
    (Hthrow : responseText apiResp = Throw) :
  exists d candidates len,
    get apiResp f_data = Return d
    /\ get d f_candidates = Return candidates
    /\ get candidates f_length = Return len
    /\ truthy candidates = true
    /\ truthy len = true.
Proof.
  unfold responseText in Hthrow.
  destruct (truthy apiResp) eqn:Hresp; [|discriminate].
  destruct (get_truthy apiResp f_data Hresp) as (d & Hd).
  rewrite Hd in Hthrow. cbn [bind andb] in Hthrow.
  destruct (truthy d) eqn:Htd; [|discriminate].
  destruct (get_truthy d f_candidates Htd) as (candidates & Hc).
  rewrite Hc in Hthrow. cbn [bind] in Hthrow.
  destruct (truthy candidates) eqn:Htc; cbn [andb bind] in Hthrow.
  - destruct (get_truthy candidates f_length Htc) as (len & Hl).
    rewrite Hl in Hthrow. cbn [bind] in Hthrow.
    destruct (truthy len) eqn:Htl.
    + exists d, candidates, len. repeat split; assumption.
    + exfalso.
      destruct (get_truthy d f_result Htd) as (result & Hr).
      rewrite Hr in Hthrow. cbn [bind] in Hthrow.
      destruct (truthy result) eqn:Htr; cbn [andb bind] in Hthrow.
      * destruct (get_truthy result f_output Htr) as (output & Ho).
        rewrite Ho in Hthrow. cbn [bind] in Hthrow.
        destruct (truthy output); discriminate.
      * discriminate.
  - exfalso.
    destruct (get_truthy d f_result Htd) as (result & Hr).
    rewrite Hr in Hthrow. cbn [bind] in Hthrow.
    destruct (truthy result) eqn:Htr; cbn [andb bind] in Hthrow.
    + destruct (get_truthy result f_output Htr) as (output & Ho).
      rewrite Ho in Hthrow. cbn [bind] in Hthrow.
      destruct (truthy output); discriminate.
    + discriminate.
Qed.

Lemma selection_throws_only_on_candidates_witness :
  exists d candidates len,
    get (VObj [(lit "data", VObj [(lit "candidates", VArr [VNull])])]) f_data
    = Return d
    /\ get d f_candidates = Return candidates
    /\ get candidates f_length = Return len
    /\ truthy candidates = true
    /\ truthy len = true.
Proof.
  apply (selection_throws_only_on_candidates
           (VObj [(lit "data", VObj [(lit "candidates", VArr [VNull])])])).
  reflexivity.
Defined.

(* ================================================================== *)
(** * Properties of the error reply *)
(* ================================================================== *)
Section ErrorFacts.

Lemma read_truthy v f : truthy v = true -> exists x, read v f = Return x.
Proof.
  destruct v; cbn; try discriminate; intros _; eexists; reflexivity.
Qed.

Lemma responseField_returns err f :
  exists x, responseField err f = Return x /\ (x = VUndefined \/ truthy x = true).
Proof.
  unfold responseField.
  destruct (truthy err) eqn:He; cbn [andb bind].
  - destruct (read_truthy err e_response He) as (response & ->). cbn [bind].
    destruct (truthy response) eqn:Hr; cbn [bind].
    + destruct (read_truthy response f Hr) as (x & ->). cbn [bind].
      destruct (truthy x) eqn:Hx; eexists; split; eauto.
    + eexists; split; eauto.
  - eexists; split; eauto.
Qed.

Lemma findReason_skips : forall pre l,
  forallb noReason pre = true -> findReason (pre ++ l) = findReason l.
Proof.
  induction pre as [|x pre IH]; intros l H; [reflexivity|].
  cbn [forallb] in H. apply andb_prop in H as [Hx Hpre].
  cbn [app findReason]. rewrite (IH l Hpre).
  destruct x as [| |b|t|s|elems|props]; try discriminate; try reflexivity.
  cbn [noReason] in Hx. apply negb_true_iff in Hx.
  cbn [read errFieldName bind]. rewrite Hx.
  destruct (truthy (lookup (lit "@type") props)) eqn:Ht; cbn [bind].
  - now rewrite Hx.
  - now rewrite Ht.
Qed.

Lemma findReason_none l :
  forallb noReason l = true -> findReason l = Return VUndefined.
Proof.
  intro H. rewrite <- (app_nil_r l). now rewrite findReason_skips.
Qed.

Lemma responseField_data ep rp f x :
  lookup (lit "response") ep = VObj rp ->
  lookup (errFieldName f) rp = x ->
  truthy x = true ->
  responseField (VObj ep) f = Return x.
Proof.
  intros Hr Hx Ht. unfold responseField. cbn [truthy read errFieldName bind].
  rewrite Hr. cbn [truthy andb read bind]. now rewrite Hx, Ht.
Qed.

End ErrorFacts.

(** X25. When a detail of the provider's error carries a truthy reason,
    the first such reason is the detected one; the error message is not
    consulted. *)
Theorem first_detail_reason_wins (p e x : list (str * value))
    (pre post : list value)
    (Herror : lookup (lit "error") p = VObj e)
    (Hdetails : lookup (lit "details") e = VArr (pre ++ VObj x :: post))
    (Hpre : forallb noReason pre = true)
    (Hreason : truthy (lookup (lit "reason") x) = true) :
  providerReasonOf (VObj p) = lookup (lit "reason") x.
Proof.
  unfold providerReasonOf, reasonFromDetails, reasonFromMessage.
  cbn [truthy read errFieldName bind andb]. rewrite Herror.
  cbn [truthy read errFieldName bind andb]. rewrite Hdetails.
  cbn [isArray]. rewrite (findReason_skips pre _ Hpre).
  cbn [findReason read errFieldName bind]. rewrite Hreason.
  cbn [truthy read errFieldName bind]. rewrite Hreason. reflexivity.
Qed.

Lemma first_detail_reason_wins_witness :
  providerReasonOf
    (VObj [(lit "error",
            VObj [(lit "message", VStr (lit "API key not valid"));
                  (lit "details",
                   VArr [VObj [(lit "@type", VStr (lit "help"))];
                         VObj [(lit "reason", VStr (lit "RATE_LIMIT"))]])])])
  = VStr (lit "RATE_LIMIT").
Proof.
  refine (first_detail_reason_wins
            [(lit "error",
              VObj [(lit "message", VStr (lit "API key not valid"));
                    (lit "details",
                     VArr [VObj [(lit "@type", VStr (lit "help"))];
                           VObj [(lit "reason", VStr (lit "RATE_LIMIT"))]])])]
            [(lit "message", VStr (lit "API key not valid"));
             (lit "details",
              VArr [VObj [(lit "@type", VStr (lit "help"))];
                    VObj [(lit "reason", VStr (lit "RATE_LIMIT"))]])]
            [(lit "reason", VStr (lit "RATE_LIMIT"))]
            [VObj [(lit "@type", VStr (lit "help"))]] [] _ _ _ _);
    reflexivity.
Defined.

(** X26. When no detail carries a reason and the provider's error message
    is a string that mentions [api key], [api_key] or [api-key] in any
    letter case, the reply has status 401. *)
Theorem api_key_message_gives_401 (ep rp p e : list (str * value))
    (s : str)
    (Hresponse : lookup (lit "response") ep = VObj rp)
    (Hdata : lookup (lit "data") rp = VObj p)
    (Herror : lookup (lit "error") p = VObj e)
    (Hdetails : isArray (lookup (lit "details") e) = false
                \/ exists l, lookup (lit "details") e = VArr l
                             /\ forallb noReason l = true)
    (Hmessage : lookup (lit "message") e = VStr s)
    (Hkey : mentionsApiKey (toLowerCase s) = true) :
  errorStatus (VObj ep) = Return (VNum (lit "401")).
Proof.
  assert (Hs : nonEmpty s = true).
  { destruct s; [discriminate Hkey | reflexivity]. }
  assert (Hreason : providerReasonOf (VObj p) = VStr (lit "API_KEY_INVALID")).
  { unfold providerReasonOf.
    assert (H1 : reasonFromDetails (VObj p) = Return VUndefined).
    { unfold reasonFromDetails.
      cbn [truthy read errFieldName bind andb]. rewrite Herror.
      cbn [truthy read errFieldName bind andb].
      destruct Hdetails as [Hd | (l & Hd & Hl)].
      - now rewrite Hd.
      - rewrite Hd. cbn [isArray]. now rewrite (findReason_none l Hl). }
    rewrite H1. unfold reasonFromMessage.
    cbn [truthy negb read errFieldName bind andb]. rewrite Herror.
    cbn [truthy read errFieldName bind andb]. rewrite Hmessage.
    cbn [truthy]. now rewrite Hs, Hkey. }
  unfold errorStatus.
  rewrite (responseField_data ep rp e_data (VObj p) Hresponse Hdata eq_refl).
  destruct (responseField_returns (VObj ep) e_status) as (ps & -> & _).
  cbn [bind truthy read errFieldName]. rewrite Herror. cbn [bind].
  rewrite Hreason. cbn [keyInvalid truthy andb read errFieldName].
  rewrite Hmessage. reflexivity.
Qed.

Lemma api_key_message_gives_401_witness :
  errorStatus
    (VObj [(lit "response",
            VObj [(lit "status", VNum (lit "400"));
                  (lit "data",
                   VObj [(lit "error",
                          VObj [(lit "message",
                                 VStr (lit "API Key not found."))])])])])
  = Return (VNum (lit "401")).
Proof.
  refine (api_key_message_gives_401
            [(lit "response",
              VObj [(lit "status", VNum (lit "400"));
                    (lit "data",
                     VObj [(lit "error",
                            VObj [(lit "message",
                                   VStr (lit "API Key not found."))])])])]
            [(lit "status", VNum (lit "400"));
             (lit "data",
              VObj [(lit "error",
                     VObj [(lit "message",
                            VStr (lit "API Key not found."))])])]
            [(lit "error",
              VObj [(lit "message", VStr (lit "API Key not found."))])]
            [(lit "message", VStr (lit "API Key not found."))]
            (lit "API Key not found.") _ _ _ _ _ _);
    try reflexivity.
  left. reflexivity.
Defined.

(* ================================================================== *)
(** * The positions, entry by entry *)
(* ================================================================== *)
Section OrderFacts.

Variable brand : str.

Lemma loopFrom_entries : forall items i st,
  Matcher.positions (loopFrom brand i items st)
  = Matcher.positions st ++ entriesFrom brand i items (currentRank st).
Proof.
  induction items as [|item items IH]; intros i st; cbn [loopFrom entriesFrom].
  - now rewrite app_nil_r.
  - rewrite IH, loopBody_spec. cbn [Matcher.positions currentRank].
    now rewrite <- app_assoc.
Qed.

(** The fuzzy step of the loop body, with the cleaning and the bound
    written out. *)
Lemma loopBody_fuzzy i item st :
  regexTest brand item = false ->
  includes (toLowerCase item) (toLowerCase brand) = false ->
  Matcher.positions (loopBody brand i item st)
  = Matcher.positions st
    ++ (if existsb
             (fun t =>
                nonEmpty t
                && (levenshtein (toLowerCase t)
                      (toLowerCase (filter isAlnum (toLowerCase brand)))
                    <=? Nat.max 2
                          (length (filter isAlnum (toLowerCase brand)) / 4)))
             (map (filter isAlnum) (splitSpaces item))
        then [lineIndex i] else []).
Proof.
  intros Hexact Hsub. unfold loopBody. rewrite Hexact, Hsub.
  cbn [Matcher.positions]. rewrite fuzzyLoop_spec.
  unfold fuzzyAccepts, threshold, stripNonAlnum, push.
  replace (Nat.max 2 (Nat.max 1 (length (filter isAlnum (toLowerCase brand)) / 4)))
    with (Nat.max 2 (length (filter isAlnum (toLowerCase brand)) / 4))
    by lia.
  change (map (fun s => filter isAlnum s) (splitSpaces item))
    with (map (filter isAlnum) (splitSpaces item)).
  destruct (existsb _ _); [reflexivity | now rewrite app_nil_r].
Qed.

End OrderFacts.

(** C3 (as the code has it). [findBrandPositions] lists, in item order,
    one entry for each item that passes the exact, the substring or the
    fuzzy test: the current rank when the item passed the exact or the
    substring test and that rank is non-zero and positive, and the item's
    1-based index otherwise, so for every fuzzy match.  When no item starts
    with a numbered-list marker the entries are integers between 1 and the
    number of items in strictly ascending order. *)
Theorem positions_in_item_order :
  (forall (items : list str) (brand : str),
     findBrandPositions items brand = entriesFrom brand 0 items (Finite 0))
  /\ (forall (items : list str) (brand : str),
        Forall (fun item => numMatch item = None) items ->
        ascending (findBrandPositions items brand) = true
        /\ exists zs,
             findBrandPositions items brand = map Finite zs
             /\ Sorted.StronglySorted Z.lt zs
             /\ Forall (fun z => (1 <= z <= Z.of_nat (length items))%Z) zs).
Proof.
  split.
  - intros items brand. unfold findBrandPositions.
    now rewrite loopFrom_entries.
  - intros items brand Hplain.
    destruct (loopFrom_unranked brand items 0 [] Hplain) as (zs & Hpos & Hs & Hb).
    unfold findBrandPositions. rewrite Hpos. cbn [app]. split.
    + now apply ascending_strictly.
    + exists zs. repeat split; auto.
Qed.

Lemma positions_in_item_order_witness :
  ascending (findBrandPositions [lit "Acme Corp"; lit "Other"; lit "Acne"]
               (lit "Acme")) = true.
Proof.
  refine (proj1 (proj2 positions_in_item_order
                   [lit "Acme Corp"; lit "Other"; lit "Acne"] (lit "Acme") _)).
  repeat constructor.
Defined.

(** C4. An item that passes neither the exact nor the substring test is
    recorded by [findBrandPositions] exactly when one of its non-empty
    cleaned tokens is within [max(2, floor(len(cleaned brand) / 4))] edits
    of the cleaned brand (the brand lower-cased and stripped of everything
    but letters and digits).  For the brand [Acme] the bound is 2, [Acne]
    is at distance 1 and is accepted; a token at distance 3 is not; a
    cleaned brand of 12 characters admits distance 3 and one of 11 does
    not. *)
Theorem fuzzy_threshold :
  (forall (brand item : str) (i : nat) (st : scan),
     regexTest brand item = false ->
     includes (toLowerCase item) (toLowerCase brand) = false ->
     Matcher.positions (loopBody brand i item st)
     = Matcher.positions st
       ++ (if existsb
                (fun t =>
                   nonEmpty t
                   && (levenshtein (toLowerCase t)
                         (toLowerCase (filter isAlnum (toLowerCase brand)))
                       <=? Nat.max 2
                             (length (filter isAlnum (toLowerCase brand)) / 4)))
                (map (filter isAlnum) (splitSpaces item))
           then [lineIndex i] else []))
  /\ (forall brand item : str,
        regexTest brand item = false ->
        includes (toLowerCase item) (toLowerCase brand) = false ->
        findBrandPositions [item] brand
        = if existsb
               (fun t =>
                  nonEmpty t
                  && (levenshtein (toLowerCase t)
                        (toLowerCase (filter isAlnum (toLowerCase brand)))
                      <=? Nat.max 2
                            (length (filter isAlnum (toLowerCase brand)) / 4)))
               (map (filter isAlnum) (splitSpaces item))
          then [Finite 1] else [])
  /\ stripNonAlnum (toLowerCase (lit "Acme")) = lit "acme"
  /\ Nat.max 2 (length (filter isAlnum (toLowerCase (lit "Acme"))) / 4) = 2
  /\ levenshtein (toLowerCase (lit "Acne")) (toLowerCase (lit "acme")) = 1
  /\ regexTest (lit "Acme") (lit "Acne") = false
  /\ includes (toLowerCase (lit "Acne")) (toLowerCase (lit "Acme")) = false
  /\ findBrandPositions [lit "Acne"] (lit "Acme") = [Finite 1]
  /\ findBrandPositions [lit "(Acne),"] (lit "A-c.m-e!") = [Finite 1]
  /\ levenshtein (lit "axyz") (lit "acme") = 3
  /\ findBrandPositions [lit "Axyz"] (lit "Acme") = []
  /\ findBrandPositions [lit "Axxxindustry"] (lit "Acmeindustry") = [Finite 1]
  /\ findBrandPositions [lit "Axxxxndustry"] (lit "Acmeindustry") = []
  /\ findBrandPositions [lit "Axxxindustr"] (lit "Acmeindustr") = [].
Proof.
  split; [|split].
  - intros brand item i st. apply loopBody_fuzzy.
  - intros brand item Hexact Hsub. unfold findBrandPositions.
    cbn [loopFrom].
    rewrite (loopBody_fuzzy brand 0 item (Scan [] (Finite 0)) Hexact Hsub).
    cbn [Matcher.positions app]. reflexivity.
  - vm_compute. repeat split.
Qed.

Lemma fuzzy_threshold_witness :
  findBrandPositions [lit "our Acne, of course"] (lit "Acme") = [Finite 1].
Proof.
  refine (proj1 (proj2 fuzzy_threshold) (lit "Acme")
            (lit "our Acne, of course") _ _); reflexivity.
Defined.

(* ================================================================== *)
(** * The parts branch of the candidate probe *)
(* ================================================================== *)
Section PartsFacts.




End PartsFacts.



(* ================================================================== *)
(** * Letter case: the distance and the matcher *)
(* ================================================================== *)
Section SameCaseFacts.

Lemma toLowerCase_sameCase : forall a b,
  toLowerCase a = toLowerCase b <-> Forall2 sameCase a b.
Proof.
  induction a as [|x a IH]; intros [|y b]; split; intro H;
    try discriminate; try (inversion H; fail); try constructor;
    try reflexivity.
  - injection H as Hx _. exact Hx.
  - injection H as _ Hrest. now apply IH.
  - inversion H as [|? ? ? ? Hx Hrest]; subst.
    cbn [toLowerCase map]. unfold sameCase in Hx. rewrite Hx. f_equal.
    now apply IH.
Qed.

Lemma levenshtein_zero_lower a b :
  levenshtein a b = 0 <-> toLowerCase a = toLowerCase b.
Proof.
  rewrite levenshtein_dist. split; intro H.
  - apply dist_zero_iff in H. rewrite !toLowerCase_rev in H.
    apply (f_equal (@rev ascii)) in H.
    now rewrite !rev_involutive in H.
  - apply dist_zero_iff. rewrite !toLowerCase_rev. now rewrite H.
Qed.

Lemma levenshtein_lower a b :
  levenshtein a b = levenshtein (toLowerCase a) (toLowerCase b).
Proof.
  rewrite !levenshtein_dist, <- !toLowerCase_rev.
  rewrite dist_lower_case_l.
  rewrite (dist_sym (rev a) (toLowerCase (rev b))), dist_lower_case_l.
  apply dist_sym.
Qed.

End SameCaseFacts.

(** X2. The distance is zero exactly between strings of the same length
    whose characters at each index have the same lower-case form. *)
Theorem levenshtein_zero_iff (a b : str) :
  levenshtein a b = 0 <-> Forall2 sameCase a b.
Proof.
  rewrite levenshtein_zero_lower. apply toLowerCase_sameCase.
Qed.

(** X3. Replacing characters of either argument by characters with the
    same lower-case form does not change the distance. *)
Theorem levenshtein_ignores_case (a a' b b' : str)
    (Ha : Forall2 sameCase a a')
    (Hb : Forall2 sameCase b b') :
  levenshtein a b = levenshtein a' b'.
Proof.
  apply toLowerCase_sameCase in Ha, Hb.
  rewrite (levenshtein_lower a b), (levenshtein_lower a' b').
  now rewrite Ha, Hb.
Qed.

Lemma levenshtein_ignores_case_witness :
  levenshtein (lit "ACME") (lit "Acne") = levenshtein (lit "acme") (lit "aCNE").
Proof.
  apply (levenshtein_ignores_case (lit "ACME") (lit "acme")
           (lit "Acne") (lit "aCNE")); repeat constructor.
Defined.

(** X10. For a brand of ASCII characters, an item that passes the
    whole-word test also passes the substring test: the exact step never
    records an item the substring step would miss. *)
Theorem exact_implies_substring (brand item : str)
    (Hascii : forallb isAscii brand = true)
    (Hexact : regexTest brand item = true) :
  includes (toLowerCase item) (toLowerCase brand) = true.
Proof.
  exact (regexTestFrom_includes brand item false Hexact).
Qed.

Lemma exact_implies_substring_witness :
  includes (toLowerCase (lit "Try ACME today")) (toLowerCase (lit "Acme"))
  = true.
Proof.
  apply (exact_implies_substring (lit "Acme") (lit "Try ACME today"));
    reflexivity.
Defined.

(** X11. Two brands of ASCII characters that differ only in letter case
    give the same positions. *)
Theorem brand_case_insensitive (items : list str) (b1 b2 : str)
    (Hascii1 : forallb isAscii b1 = true)
    (Hascii2 : forallb isAscii b2 = true)
    (Hcase : toLowerCase b1 = toLowerCase b2) :
  findBrandPositions items b1 = findBrandPositions items b2.
Proof.
  unfold findBrandPositions. now rewrite (loopFrom_brand_case b1 b2 Hcase).
Qed.

Lemma brand_case_insensitive_witness :
  findBrandPositions [lit "1. Acme Corp"; lit "acne"] (lit "ACME")
  = findBrandPositions [lit "1. Acme Corp"; lit "acne"] (lit "acme").
Proof.
  apply (brand_case_insensitive [lit "1. Acme Corp"; lit "acne"]
           (lit "ACME") (lit "acme")); reflexivity.
Defined.

(** X12. Lower-casing items of ASCII characters does not change the
    positions. *)
Theorem items_case_insensitive (items : list str) (brand : str)
    (Hascii : Forall (fun item => forallb isAscii item = true) items) :
  findBrandPositions (map toLowerCase items) brand
  = findBrandPositions items brand.
Proof.
  unfold findBrandPositions. now rewrite loopFrom_item_case.
Qed.

Lemma items_case_insensitive_witness :
  findBrandPositions (map toLowerCase [lit "2) ACME Corp"; lit "The ACNE"])
    (lit "Acme")
  = findBrandPositions [lit "2) ACME Corp"; lit "The ACNE"] (lit "Acme").
Proof.
  apply (items_case_insensitive [lit "2) ACME Corp"; lit "The ACNE"]
           (lit "Acme")).
  repeat constructor.
Defined.

(* ================================================================== *)
(** * The error reply: rendering the message *)
(* ================================================================== *)
Section RenderFacts.

Lemma toString_falsy v : truthy v = false -> exists t, toString v = Return t.
Proof.
  destruct v; cbn [truthy]; intro H; try discriminate;
    eexists; reflexivity.
Qed.

(** No reason is detected without a truthy error object. *)
Lemma providerReason_needs_error pd error :
  (if truthy pd then read pd e_error else Return VUndefined) = Return error ->
  truthy pd && truthy error = false ->
  providerReasonOf pd = VUndefined.
Proof.
  intros Herror Hfalse. unfold providerReasonOf, reasonFromDetails.
  rewrite Herror. cbn [bind]. rewrite Hfalse. cbn [bind andb].
  unfold reasonFromMessage. cbn [truthy negb andb].
  destruct (truthy pd) eqn:Hpd; cbn [andb bind] in *.
  - rewrite Herror. cbn [bind]. rewrite Hfalse. reflexivity.
  - reflexivity.
Qed.

Lemma error_read pd :
  exists error,
    (if truthy pd then read pd e_error else Return VUndefined) = Return error.
Proof.
  destruct (truthy pd) eqn:Hpd; [|eexists; reflexivity].
  destruct (read_truthy pd e_error Hpd) as (error & ->). now exists error.
Qed.

End RenderFacts.

(** X24. Let the message be what the error reply renders: the provider's
    [error.message], or [err.message] without a provider error.  When its
    conversion to a string succeeds, the status of the reply is computed
    and is a truthy value: [401], the provider's status, or [500].  When
    the conversion throws, the handler throws and computes no status. *)
Theorem error_status_defined (err msg : value)
    (Hmsg : renderedMessage err = Return msg)
    (Hstatus : forall ps, responseField err e_status = Return ps ->
                          ps = VUndefined \/ exists n, ps = VNum n) :
  (forall t, toString msg = Return t ->
     exists status,
       errorStatus err = Return status
       /\ truthy status = true
       /\ (status = VNum (lit "401")
           \/ responseField err e_status = Return status
           \/ status = VNum (lit "500")))
  /\ (toString msg = Throw -> errorStatus err = Throw).
Proof.
  unfold renderedMessage in Hmsg. unfold errorStatus.
  destruct (responseField_returns err e_data) as (pd & Hpd & _).
  destruct (responseField_returns err e_status) as (ps & Hps & Hcase).
  rewrite Hpd in *. rewrite Hps. cbn [bind] in *.
  destruct (error_read pd) as (error & Herror).
  rewrite Herror in *. cbn [bind] in *.
  destruct (truthy pd && truthy error) eqn:Hboth.
  - (* the provider sent an error object *)
    rewrite Hmsg. cbn [bind].
    destruct (keyInvalid (providerReasonOf pd)); split.
    + intros t Ht. rewrite Ht. cbn [bind].
      eexists. repeat split. now left.
    + intros Ht. now rewrite Ht.
    + intros t Ht.
      assert (Hr : exists t',
                 toString (if truthy msg then msg
                           else VStr (lit "Unknown error")) = Return t').
      { destruct (truthy msg); [now exists t | eexists; reflexivity]. }
      destruct Hr as (t' & ->). cbn [bind].
      destruct (truthy ps) eqn:Htp; eexists; repeat split; auto.
    + intros Ht. destruct (truthy msg) eqn:Htm.
      * now rewrite Ht.
      * destruct (toString_falsy msg Htm) as (t & Hok). congruence.
  - (* no error object: [err.message] is rendered *)
    rewrite (providerReason_needs_error pd error Herror Hboth).
    cbn [keyInvalid].
    destruct (truthy err) eqn:Herr; cbn [andb] in *.
    + rewrite Hmsg. cbn [bind]. split.
      * intros t Ht.
        assert (Hr : exists t',
                   toString (if truthy msg then msg
                             else VStr (lit "Unknown error")) = Return t').
        { destruct (truthy msg); [now exists t | eexists; reflexivity]. }
        destruct Hr as (t' & ->). cbn [bind].
        destruct (truthy ps) eqn:Htp; eexists; repeat split; auto.
      * intros Ht. destruct (truthy msg) eqn:Htm.
        -- now rewrite Ht.
        -- destruct (toString_falsy msg Htm) as (t & Hok). congruence.
    + injection Hmsg as <-. cbn [bind toString]. split.
      * intros t _.
        destruct (truthy ps) eqn:Htp; eexists; repeat split; auto.
      * discriminate.
Qed.

Lemma error_status_defined_witness :
  exists status,
    errorStatus
      (VObj [(lit "response",
              VObj [(lit "status", VNum (lit "404"));
                    (lit "data",
                     VObj [(lit "error",
                            VObj [(lit "message",
                                   VStr (lit "model not found"))])])])])
    = Return status
    /\ truthy status = true
    /\ (status = VNum (lit "401")
        \/ responseField
             (VObj [(lit "response",
                     VObj [(lit "status", VNum (lit "404"));
                           (lit "data",
                            VObj [(lit "error",
                                   VObj [(lit "message",
                                          VStr (lit "model not found"))])])])])
             e_status
           = Return status
        \/ status = VNum (lit "500")).
Proof.
  refine (proj1 (error_status_defined
            (VObj [(lit "response",
                    VObj [(lit "status", VNum (lit "404"));
                          (lit "data",
                           VObj [(lit "error",
                                  VObj [(lit "message",
                                         VStr (lit "model not found"))])])])])
            (VStr (lit "model not found")) _ _)
            (lit "model not found") _).
  - reflexivity.
  - intros ps Hps. right. exists (lit "404").
    vm_compute in Hps. now injection Hps as <-.
  - reflexivity.
Defined.

(** X27. A [null] detail met before any reason makes the reason detection
    throw inside its [try] block: no provider reason is detected, so the
    invalid-key test fails, even when the error message mentions an API
    key. *)
Theorem null_detail_aborts_detection (p e : list (str * value))
    (pre post : list value)
    (Herror : lookup (lit "error") p = VObj e)
    (Hdetails : lookup (lit "details") e = VArr (pre ++ VNull :: post))
    (Hpre : forallb noReason pre = true) :
  providerReasonOf (VObj p) = VUndefined
  /\ keyInvalid (providerReasonOf (VObj p)) = false.
Proof.
  assert (Hreason : providerReasonOf (VObj p) = VUndefined).
  { unfold providerReasonOf, reasonFromDetails.
    cbn [truthy read errFieldName bind andb]. rewrite Herror.
    cbn [truthy read errFieldName bind andb]. rewrite Hdetails.
    cbn [isArray]. rewrite (findReason_skips pre _ Hpre). reflexivity. }
  split; [exact Hreason | now rewrite Hreason].
Qed.

Lemma null_detail_aborts_detection_witness :
  keyInvalid
    (providerReasonOf
       (VObj [(lit "error",
               VObj [(lit "message", VStr (lit "bad api key"));
                     (lit "details", VArr [VNull])])]))
  = false.
Proof.
  refine (proj2 (null_detail_aborts_detection
            [(lit "error",
              VObj [(lit "message", VStr (lit "bad api key"));
                    (lit "details", VArr [VNull])])]
            [(lit "message", VStr (lit "bad api key"));
             (lit "details", VArr [VNull])]
            [] [] _ _ _)); reflexivity.
Defined.
